(** * rayrender: probability-density objects (pdf.h) and the triangle
      primitive (triangle.h)

    A shallow embedding of the importance-sampling core.  The C++ type
    [Float] is kept abstract behind an interface of the arithmetic the two
    headers use; the code is written once against that interface and is
    then read in two models: exact real arithmetic ([R]) for the
    mathematical statements, and IEEE binary64 (primitive floats) to run
    the code on concrete inputs.  The random generator and the quasi
    sampler are threaded explicitly as states. *)

From Stdlib Require Import ZArith List Bool String Reals Lra Lia.
From Stdlib Require Import PrimFloat.
From Stdlib Require FloatAxioms SpecFloat.
Import ListNotations.

Set Implicit Arguments.

(* ================================================================== *)
(** ** The arithmetic interface of [Float] *)

(** The operations and literals of [Float] that pdf.h and triangle.h use.
    [fltb a b] is the C++ test [a < b]; [M_PI] and [M_1_PI] are the
    <cmath> constants pi and 1/pi. *)
Class FloatOps (F : Type) : Type := {
  fzero  : F;                 (* the literal 0 *)
  fone   : F;                 (* the literal 1.0 *)
  fhalf  : F;                 (* the literals 0.5 and 0.5f *)
  ftwo   : F;                 (* the literal 2 *)
  ffour  : F;                 (* the literal 4 *)
  M_PI   : F;
  M_1_PI : F;
  fadd   : F -> F -> F;
  fsub   : F -> F -> F;
  fmul   : F -> F -> F;
  fdiv   : F -> F -> F;
  fneg   : F -> F;
  fabs   : F -> F;            (* std::fabs *)
  fsqrt  : F -> F;            (* sqrt *)
  fltb   : F -> F -> bool
}.

Declare Scope float_ops_scope.
Delimit Scope float_ops_scope with fl.
Infix "+" := fadd : float_ops_scope.
Infix "-" := fsub : float_ops_scope.
Infix "*" := fmul : float_ops_scope.
Infix "/" := fdiv : float_ops_scope.
Infix "<?" := fltb : float_ops_scope.
Notation "- x" := (fneg x) : float_ops_scope.

(* ================================================================== *)
(** ** vec3 *)

Record vec3 (F : Type) : Type := mkvec3 { vx : F; vy : F; vz : F }.

Arguments mkvec3 {F} _ _ _.

(** Modelled from the spec: vec3.h is not part of the two headers; these
    are the component-wise operations, the dot and cross products, the
    Euclidean length and the normalisation the headers call on [vec3]. *)
Section Vec3.
Context {F : Type} `{FloatOps F}.
Local Open Scope float_ops_scope.

Definition vadd (a b : vec3 F) : vec3 F :=
  mkvec3 (vx a + vx b) (vy a + vy b) (vz a + vz b).

Definition vsub (a b : vec3 F) : vec3 F :=
  mkvec3 (vx a - vx b) (vy a - vy b) (vz a - vz b).

Definition vopp (a : vec3 F) : vec3 F :=
  mkvec3 (- vx a) (- vy a) (- vz a).

Definition vscale (k : F) (a : vec3 F) : vec3 F :=
  mkvec3 (k * vx a) (k * vy a) (k * vz a).

Definition vdivs (a : vec3 F) (k : F) : vec3 F :=
  mkvec3 (vx a / k) (vy a / k) (vz a / k).

Definition dot (a b : vec3 F) : F :=
  vx a * vx b + vy a * vy b + vz a * vz b.

Definition cross (a b : vec3 F) : vec3 F :=
  mkvec3 (vy a * vz b - vz a * vy b)
         (vz a * vx b - vx a * vz b)
         (vx a * vy b - vy a * vx b).

Definition squared_length (a : vec3 F) : F :=
  vx a * vx a + vy a * vy a + vz a * vz a.

(* vec3::length *)
Definition length3 (a : vec3 F) : F := fsqrt (squared_length a).

(* unit_vector(v) = v / v.length() *)
Definition unit_vector (a : vec3 F) : vec3 F := vdivs a (length3 a).

(* vec3::make_unit_vector: scale in place by k = 1 / length *)
Definition make_unit_vector (a : vec3 F) : vec3 F :=
  vscale (fone / length3 a) a.

(** Modelled from the spec: [AbsCosTheta] is declared with the
    microfacet code; in the shading frame it is |w.z|. *)
Definition AbsCosTheta (a : vec3 F) : F := fabs (vz a).
End Vec3.

(* ================================================================== *)
(** ** The two models of [Float] *)

Definition Rltb (a b : R) : bool := if Rlt_dec a b then true else false.

(** Exact arithmetic. *)
#[export] Instance RealFloat : FloatOps R := {|
  fzero := 0%R; fone := 1%R; fhalf := (/ 2)%R; ftwo := 2%R; ffour := 4%R;
  M_PI := PI; M_1_PI := (/ PI)%R;
  fadd := Rplus; fsub := Rminus; fmul := Rmult; fdiv := Rdiv;
  fneg := Ropp; fabs := Rabs; fsqrt := R_sqrt.sqrt; fltb := Rltb
|}.

(** IEEE binary64, the arithmetic of [Float] when it is [double]. *)
#[export] Instance Binary64 : FloatOps float := {|
  fzero := 0%float; fone := 1%float; fhalf := 0.5%float;
  ftwo := 2%float; ffour := 4%float;
  M_PI := 0x1.921fb54442d18p+1%float;
  M_1_PI := 0x1.45f306dc9c883p-2%float;
  fadd := PrimFloat.add; fsub := PrimFloat.sub; fmul := PrimFloat.mul;
  fdiv := PrimFloat.div; fneg := PrimFloat.opp; fabs := PrimFloat.abs;
  fsqrt := PrimFloat.sqrt; fltb := PrimFloat.ltb
|}.

(** [INFINITY] of <cmath>; exact arithmetic has no such value, so it is an
    interface of its own. *)
Class HasInfinity (F : Type) : Type := { INFINITY : F }.

#[export] Instance Binary64Infinity : HasInfinity float :=
  {| INFINITY := PrimFloat.infinity |}.

(* ================================================================== *)
(** ** State passing

    [random_gen& rng] and [Sampler* sampler] are mutable objects handed to
    every call; a computation that may use one takes its state and returns
    the state it leaves behind. *)

Definition State (S A : Type) : Type := S -> A * S.

Definition ret {S A : Type} (x : A) : State S A := fun s => (x, s).

Definition bind {S A B : Type} (m : State S A) (k : A -> State S B)
  : State S B :=
  fun s => let (x, s') := m s in k x s'.

Notation "x <- m ;; k" := (bind m (fun x => k))
  (at level 61, m at next level, right associativity).

(** C++ does not fix the order in which the arguments of one call are
    evaluated; a call whose arguments have effects is read under either
    order. *)
Inductive arg_order : Type :=
| left_to_right
| right_to_left.

(** The two effectful arguments [first] and [second] of one call, run in
    the given order; the result pairs the values in argument position. *)
Definition two_args {St A B : Type} (order : arg_order)
  (first : State St A) (second : State St B) : State St (A * B) :=
  match order with
  | left_to_right => a <- first ;; b <- second ;; ret (a, b)
  | right_to_left => b <- second ;; a <- first ;; ret (a, b)
  end.

(* ================================================================== *)
(** ** External collaborators

    rng.h, sampler.h, onbh.h, microfacetdist.h, hitablelist.h and
    mathinline.h are not among the sources: what pdf.h calls on them is
    taken as a parameter. *)

Record vec2 (F : Type) : Type := mkvec2 { x2 : F; y2 : F }.

(** [random_gen]: the stateful pseudo-random generator. *)
Class RandomGen (F G : Type) : Type := {
  unif_rand : State G F;
  random_cosine_direction : State G (vec3 F)
}.

(** [Sampler]: the quasi sampler. *)
Class SamplerOps (F Smp : Type) : Type := {
  Get1D : State Smp F;
  Get2D : State Smp (vec2 F)
}.

(** [onb]: the orthonormal frame. *)
Class OnbOps (F O : Type) : Type := {
  build_from_w : vec3 F -> O;
  onb_w : O -> vec3 F;                       (* uvw.w() *)
  local_to_world : O -> vec3 F -> vec3 F;
  world_to_local : O -> vec3 F -> vec3 F
}.

(** Free functions of the sampling helpers. *)
Class Helpers (F : Type) : Type := {
  Reflect : vec3 F -> vec3 F -> vec3 F;
  rand_cosine_direction : vec2 F -> vec3 F
}.

(** [MicrofacetDistribution]: an object reached through a pointer; only
    its two virtual methods are used. *)
Module MicrofacetDistribution.
Record t (F : Type) : Type := mk {
  Pdf : vec3 F -> vec3 F -> vec3 F -> F;
  Sample_wh : vec3 F -> F -> F -> vec3 F
}.
End MicrofacetDistribution.

(** [hitable_list]: the scene-sampling collection. *)
Module hitable_list.
Record t (F G Smp : Type) : Type := mk {
  pdf_value : vec3 F -> vec3 F -> State G F;
  random : vec3 F -> State G (vec3 F);
  random_sampler : vec3 F -> State Smp (vec3 F)
}.
End hitable_list.

(* ================================================================== *)
(** ** class pdf

    The abstract base class: an object is seen through its three virtual
    methods.  [generate_sampler] is the overload taking a sampler. *)

Module pdf.
Record t (F G Smp : Type) : Type := mk {
  value : vec3 F -> State G F;
  generate : State G (vec3 F);
  generate_sampler : State Smp (vec3 F)
}.
End pdf.

(* ------------------------------------------------------------------ *)
(** *** class cosine_pdf *)

Module cosine_pdf.
Section Def.
Context {F G Smp O : Type}.
Context `{FloatOps F} `{RandomGen F G} `{SamplerOps F Smp}.
Context `{OnbOps F O} `{Helpers F}.
Local Open Scope float_ops_scope.

Record t : Type := mk { uvw : O }.

(* cosine_pdf(const vec3& w) *)
Definition new (w : vec3 F) : t := mk (build_from_w w).

Definition value (self : t) (direction : vec3 F) : State G F :=
  let cosine := dot (unit_vector direction) (onb_w (uvw self)) in
  if fzero <? cosine then
    ret (cosine / M_PI)
  else
    ret fzero.

Definition generate (self : t) : State G (vec3 F) :=
  d <- random_cosine_direction ;;
  ret (local_to_world (uvw self) d).

Definition generate_sampler (self : t) : State Smp (vec3 F) :=
  u <- Get2D ;;
  ret (local_to_world (uvw self) (rand_cosine_direction u)).

Definition as_pdf (self : t) : pdf.t F G Smp :=
  pdf.mk (value self) (generate self) (generate_sampler self).
End Def.
Arguments t : clear implicits.
End cosine_pdf.

(* ------------------------------------------------------------------ *)
(** *** class micro_pdf

    The two [rng.unif_rand()] arguments of [Sample_wh] are drawn in the
    order [order] that the compiler chose for that call. *)

Module micro_pdf.
Section Def.
Context {F G Smp O : Type}.
Context `{FloatOps F} `{RandomGen F G} `{SamplerOps F Smp}.
Context `{OnbOps F O} `{Helpers F}.
Local Open Scope float_ops_scope.

Record t : Type := mk {
  uvw : O;
  wi : vec3 F;
  distribution : MicrofacetDistribution.t F
}.

Definition new (w wi_ : vec3 F) (distribution : MicrofacetDistribution.t F)
  : t :=
  let uvw := build_from_w w in
  mk uvw (vopp (unit_vector (world_to_local uvw wi_))) distribution.

Definition value (self : t) (direction : vec3 F) : State G F :=
  let wo := unit_vector (world_to_local (uvw self) direction) in
  let wh := unit_vector (vadd (wi self) wo) in
  ret (MicrofacetDistribution.Pdf (distribution self) wo (wi self) wh
       / (ffour * dot wo wh)).

Definition generate (order : arg_order) (self : t) : State G (vec3 F) :=
  u <- two_args order unif_rand unif_rand ;;
  let wh := MicrofacetDistribution.Sample_wh (distribution self)
              (wi self) (fst u) (snd u) in
  ret (local_to_world (uvw self) (Reflect (wi self) wh)).

Definition generate_sampler (self : t) : State Smp (vec3 F) :=
  u <- Get2D ;;
  let wh := MicrofacetDistribution.Sample_wh (distribution self)
              (wi self) (x2 u) (y2 u) in
  ret (local_to_world (uvw self) (Reflect (wi self) wh)).

Definition as_pdf (order : arg_order) (self : t) : pdf.t F G Smp :=
  pdf.mk (value self) (generate order self) (generate_sampler self).
End Def.
Arguments t : clear implicits.
End micro_pdf.

(* ------------------------------------------------------------------ *)
(** *** class glossy_pdf

    In the microfacet branch of [generate] the two [rng.unif_rand()]
    arguments of [Sample_wh] are drawn in the order [order]. *)

Module glossy_pdf.
Section Def.
Context {F G Smp O : Type}.
Context `{FloatOps F} `{HasInfinity F} `{RandomGen F G} `{SamplerOps F Smp}.
Context `{OnbOps F O} `{Helpers F}.
Local Open Scope float_ops_scope.

Record t : Type := mk {
  uvw : O;
  wi : vec3 F;
  distribution : MicrofacetDistribution.t F
}.

Definition new (w wi_ : vec3 F) (distribution : MicrofacetDistribution.t F)
  : t :=
  let uvw := build_from_w w in
  mk uvw (vopp (unit_vector (world_to_local uvw wi_))) distribution.

Definition value (self : t) (direction : vec3 F) : State G F :=
  let wo := unit_vector (world_to_local (uvw self) direction) in
  if vz wo * vz (wi self) <? fzero then
    ret INFINITY
  else
    let wh := unit_vector (vadd (wi self) wo) in
    ret (fhalf * (AbsCosTheta (wi self) * M_1_PI
                  + MicrofacetDistribution.Pdf (distribution self)
                      wo (wi self) wh
                    / (ffour * dot wo wh))).

Definition generate (order : arg_order) (self : t) : State G (vec3 F) :=
  r <- unif_rand ;;
  if r <? fhalf then
    u <- two_args order unif_rand unif_rand ;;
    let wh := MicrofacetDistribution.Sample_wh (distribution self)
                (wi self) (fst u) (snd u) in
    ret (local_to_world (uvw self) (Reflect (wi self) wh))
  else
    d <- random_cosine_direction ;;
    ret (local_to_world (uvw self) d).

Definition generate_sampler (self : t) : State Smp (vec3 F) :=
  r <- Get1D ;;
  if r <? fhalf then
    u <- Get2D ;;
    let wh := MicrofacetDistribution.Sample_wh (distribution self)
                (wi self) (x2 u) (y2 u) in
    ret (local_to_world (uvw self) (Reflect (wi self) wh))
  else
    u <- Get2D ;;
    ret (local_to_world (uvw self) (rand_cosine_direction u)).

Definition as_pdf (order : arg_order) (self : t) : pdf.t F G Smp :=
  pdf.mk (value self) (generate order self) (generate_sampler self).
End Def.
Arguments t : clear implicits.
End glossy_pdf.

(* ------------------------------------------------------------------ *)
(** *** class hair_pdf: the constructor

    The member arrays are raw C arrays.  An array is a list; a cell of a
    member array holds [None] until the constructor stores into it.  An
    access outside the array is undefined behaviour in C++ and is reported
    here as [OutOfBounds] with the array and the index.  [pMax] is declared
    in a header that is not among the sources and is a parameter. *)

Inductive outcome (A : Type) : Type :=
| Done (x : A)
| OutOfBounds (array : string) (index : Z)
| OutOfFuel.

Arguments Done {A} x.
Arguments OutOfBounds {A} array index.
Arguments OutOfFuel {A}.

Definition array_read {A : Type} (name : string) (arr : list A) (i : Z)
  : outcome A :=
  if (i <? 0)%Z then OutOfBounds name i
  else match nth_error arr (Z.to_nat i) with
       | Some x => Done x
       | None => OutOfBounds name i
       end.

Fixpoint list_update {A : Type} (arr : list A) (n : nat) (x : A) : list A :=
  match arr, n with
  | [], _ => []
  | _ :: tl, O => x :: tl
  | hd :: tl, S n' => hd :: list_update tl n' x
  end.

Definition array_write {A : Type} (name : string) (arr : list A) (i : Z)
  (x : A) : outcome (list A) :=
  if ((0 <=? i) && (i <? Z.of_nat (List.length arr)))%Z
  then Done (list_update arr (Z.to_nat i) x)
  else OutOfBounds name i.

(** [for (int i = start; cond(i); ++i) body]: one unit of fuel per test of
    the condition. *)
Fixpoint for_loop {St : Type} (fuel : nat) (i : Z) (cond : Z -> bool)
  (body : Z -> St -> outcome St) (s : St) : outcome St :=
  match fuel with
  | O => OutOfFuel
  | S fuel' =>
      if cond i then
        match body i s with
        | Done s' => for_loop fuel' (i + 1) cond body s'
        | OutOfBounds name k => OutOfBounds name k
        | OutOfFuel => OutOfFuel
        end
      else Done s
  end.

Module hair_pdf.
Section Def.
Context {F O : Type}.
Variable pMax : Z.

Record t : Type := mk {
  uvw : O;
  wi : vec3 F;
  wo : vec3 F;
  eta : F; h : F; gammaO : F; s : F;
  sigma_a : vec3 F;
  sin2kAlpha : list (option F);      (* Float sin2kAlpha[3] *)
  cos2kAlpha : list (option F);      (* Float cos2kAlpha[3] *)
  v : list (option F)                (* Float v[pMax + 1] *)
}.

(** The body of the first loop:
    [sin2kAlpha[i] = sin2kAlpha_[i]; cos2kAlpha[i] = cos2kAlpha_[i];] *)
Definition copy_alpha (sin2kAlpha_ cos2kAlpha_ : list F) (i : Z)
  (arrs : list (option F) * list (option F))
  : outcome (list (option F) * list (option F)) :=
  match array_read "sin2kAlpha_"%string sin2kAlpha_ i with
  | Done x =>
      match array_write "sin2kAlpha"%string (fst arrs) i (Some x) with
      | Done sin' =>
          match array_read "cos2kAlpha_"%string cos2kAlpha_ i with
          | Done y =>
              match array_write "cos2kAlpha"%string (snd arrs) i (Some y) with
              | Done cos' => Done (sin', cos')
              | OutOfBounds name k => OutOfBounds name k
              | OutOfFuel => OutOfFuel
              end
          | OutOfBounds name k => OutOfBounds name k
          | OutOfFuel => OutOfFuel
          end
      | OutOfBounds name k => OutOfBounds name k
      | OutOfFuel => OutOfFuel
      end
  | OutOfBounds name k => OutOfBounds name k
  | OutOfFuel => OutOfFuel
  end.

(** The body of the second loop: [v[p] = v_[p];] *)
Definition copy_v (v_ : list F) (p : Z) (v : list (option F))
  : outcome (list (option F)) :=
  match array_read "v_"%string v_ p with
  | Done x => array_write "v"%string v p (Some x)
  | OutOfBounds name k => OutOfBounds name k
  | OutOfFuel => OutOfFuel
  end.

(** The second loop of the constructor, on the member array [v]:
    [for (int p = 0; p <= pMax + 1; ++p) v[p] = v_[p];] *)
Definition copy_v_loop (fuel : nat) (v_ : list F) (v : list (option F))
  : outcome (list (option F)) :=
  for_loop fuel 0 (fun p => (p <=? pMax + 1)%Z) (copy_v v_) v.

(** The first loop, on [sin2kAlpha] and [cos2kAlpha]:
    [for (int i = 0; i < 3; ++i) ...] *)
Definition copy_alpha_loop (fuel : nat) (sin2kAlpha_ cos2kAlpha_ : list F)
  (arrs : list (option F) * list (option F))
  : outcome (list (option F) * list (option F)) :=
  for_loop fuel 0 (fun i => (i <? 3)%Z) (copy_alpha sin2kAlpha_ cos2kAlpha_)
    arrs.

Definition new (fuel : nat) (uvw_ : O) (wi_ wo_ : vec3 F)
  (eta_ h_ gammaO_ s_ : F) (sigma_a_ : vec3 F)
  (cos2kAlpha_ sin2kAlpha_ v_ : list F) : outcome t :=
  match copy_alpha_loop fuel sin2kAlpha_ cos2kAlpha_
          (repeat None 3, repeat None 3) with
  | Done (sin2kAlpha, cos2kAlpha) =>
      match copy_v_loop fuel v_ (repeat None (Z.to_nat (pMax + 1))) with
      | Done v =>
          Done (mk uvw_ wi_ wo_ eta_ h_ gammaO_ s_ sigma_a_
                  sin2kAlpha cos2kAlpha v)
      | OutOfBounds name k => OutOfBounds name k
      | OutOfFuel => OutOfFuel
      end
  | OutOfBounds name k => OutOfBounds name k
  | OutOfFuel => OutOfFuel
  end.
End Def.
Arguments t : clear implicits.
End hair_pdf.

(* ------------------------------------------------------------------ *)
(** *** class hitable_pdf *)

Module hitable_pdf.
Section Def.
Context {F G Smp : Type}.

Record t : Type := mk {
  ptr : hitable_list.t F G Smp;
  o : vec3 F
}.

(* hitable_pdf(hitable_list *p, const vec3& origin) : ptr(p), o(origin) *)
Definition new (p : hitable_list.t F G Smp) (origin : vec3 F) : t :=
  mk p origin.

Definition value (self : t) (direction : vec3 F) : State G F :=
  hitable_list.pdf_value (ptr self) (o self) direction.

Definition generate (self : t) : State G (vec3 F) :=
  hitable_list.random (ptr self) (o self).

Definition generate_sampler (self : t) : State Smp (vec3 F) :=
  hitable_list.random_sampler (ptr self) (o self).

Definition as_pdf (self : t) : pdf.t F G Smp :=
  pdf.mk (value self) (generate self) (generate_sampler self).

(** The life of one object: a sequence of method calls.  A call returns
    its result together with the object as the method leaves it (no method
    assigns to a member) and the two randomness states. *)
Inductive call : Type :=
| call_value (direction : vec3 F)
| call_generate
| call_generate_sampler.

Inductive reply : Type :=
| density (x : F)
| direction (d : vec3 F).

Definition invoke (self : t) (c : call) (st : G * Smp)
  : reply * t * (G * Smp) :=
  match c with
  | call_value d =>
      let (x, g') := value self d (fst st) in
      (density x, self, (g', snd st))
  | call_generate =>
      let (d, g') := generate self (fst st) in
      (direction d, self, (g', snd st))
  | call_generate_sampler =>
      let (d, s') := generate_sampler self (snd st) in
      (direction d, self, (fst st, s'))
  end.

Fixpoint run (self : t) (calls : list call) (st : G * Smp)
  : list reply * t * (G * Smp) :=
  match calls with
  | [] => ([], self, st)
  | c :: rest =>
      match invoke self c st with
      | (r, self', st') =>
          match run self' rest st' with
          | (rs, self'', st'') => (r :: rs, self'', st'')
          end
      end
  end.
End Def.
Arguments t : clear implicits.
End hitable_pdf.

(* ------------------------------------------------------------------ *)
(** *** class mixture_pdf

    C++ leaves the order of the two [value] calls in the sum open; they
    are sequenced left to right here. *)

Module mixture_pdf.
Section Def.
Context {F G Smp : Type}.
Context `{FloatOps F} `{RandomGen F G} `{SamplerOps F Smp}.
Local Open Scope float_ops_scope.

Record t : Type := mk {
  p0 : pdf.t F G Smp;                (* p[0] *)
  p1 : pdf.t F G Smp                 (* p[1] *)
}.

Definition new (p0 p1 : pdf.t F G Smp) : t := mk p0 p1.

Definition value (self : t) (direction : vec3 F) : State G F :=
  v0 <- pdf.value (p0 self) direction ;;
  v1 <- pdf.value (p1 self) direction ;;
  ret (fhalf * v0 + fhalf * v1).

Definition generate (self : t) : State G (vec3 F) :=
  r <- unif_rand ;;
  if r <? fhalf then
    pdf.generate (p0 self)
  else
    pdf.generate (p1 self).

Definition generate_sampler (self : t) : State Smp (vec3 F) :=
  r <- Get1D ;;
  if r <? fhalf then
    pdf.generate_sampler (p0 self)
  else
    pdf.generate_sampler (p1 self).

Definition as_pdf (self : t) : pdf.t F G Smp :=
  pdf.mk (value self) (generate self) (generate_sampler self).
End Def.
Arguments t : clear implicits.
End mixture_pdf.

(* ================================================================== *)
(** ** class triangle (triangle.h)

    The material and the two textures are reached through raw pointers;
    a pointer is an address, [nullptr] is address 0.  [delete] is recorded
    in a log of released objects, in program order. *)

Definition pointer : Type := Z.

Definition nullptr : pointer := 0%Z.

(* the C++ test [if (p)] *)
Definition nonnull (p : pointer) : bool := negb (p =? 0)%Z.

Module triangle.

Inductive released : Type :=
| delete_material (p : pointer)          (* delete mp *)
| delete_alpha_texture (p : pointer)     (* delete alpha_mask *)
| delete_bump_texture (p : pointer).     (* delete bump_tex *)

Definition released_eq_dec (x y : released) : {x = y} + {x <> y}.
Proof. decide equality; apply Z.eq_dec. Defined.

Section Def.
Context {F : Type} `{FloatOps F}.
Local Open Scope float_ops_scope.

Record t : Type := mk {
  normal : vec3 F;
  a : vec3 F; b : vec3 F; c : vec3 F;
  (* na, nb, nc are left unset by the constructor without normals *)
  na : option (vec3 F); nb : option (vec3 F); nc : option (vec3 F);
  edge1 : vec3 F; edge2 : vec3 F;
  area : F;
  normals_provided : bool;
  single : bool;
  mp : pointer;
  alpha_mask : pointer;
  bump_tex : pointer
}.

(** [triangle(_a, _b, _c, _single, mat, alpha_mask, bump_tex)] *)
Definition new (_a _b _c : vec3 F) (_single : bool)
  (mat alpha_mask bump_tex : pointer) : t :=
  let edge1 := vsub _b _a in
  let edge2 := vsub _c _a in
  let normal := cross edge1 edge2 in
  let area := length3 normal / ftwo in
  let normal := make_unit_vector normal in
  mk normal _a _b _c None None None edge1 edge2 area false _single
     mat alpha_mask bump_tex.

(** [triangle(_a, _b, _c, _na, _nb, _nc, _single, mat, alpha_mask,
    bump_tex)] *)
Definition new_normals (_a _b _c _na _nb _nc : vec3 F) (_single : bool)
  (mat alpha_mask bump_tex : pointer) : t :=
  let edge1 := vsub _b _a in
  let edge2 := vsub _c _a in
  let normal := cross edge1 edge2 in
  let area := length3 normal / ftwo in
  mk normal _a _b _c (Some _na) (Some _nb) (Some _nc) edge1 edge2 area
     true _single mat alpha_mask bump_tex.

(** [~triangle()]: extends the log of released objects. *)
Definition destructor (self : t) (log : list released) : list released :=
  if single self then
    let log :=
      if nonnull (mp self) then log ++ [delete_material (mp self)]
      else log in
    let log :=
      if nonnull (alpha_mask self)
      then log ++ [delete_alpha_texture (alpha_mask self)]
      else log in
    let log :=
      if nonnull (bump_tex self)
      then log ++ [delete_bump_texture (bump_tex self)]
      else log in
    log
  else log.
End Def.
Arguments t : clear implicits.
End triangle.

(** What one guarded [delete] of the destructor adds to the log. *)
Definition release_if_set (ev : pointer -> triangle.released) (p : pointer)
  : list triangle.released :=
  if nonnull p then [ev p] else [].

(* ================================================================== *)
(** ** Concrete collaborators, to run the code on inputs *)

(** Modelled from the spec: onbh.h is not among the sources.  A frame is
    its three axes; [world_to_local] takes the coordinates along the axes
    and [local_to_world] recombines them.  [build_from_w] normalises the
    input into the w axis and completes it with a helper axis that is not
    parallel to it. *)
Record onb (F : Type) : Type := mk_onb {
  axis_u : vec3 F; axis_v : vec3 F; axis_w : vec3 F
}.

Section Onb.
Context {F : Type} `{FloatOps F}.
Local Open Scope float_ops_scope.

Definition onb_build_from_w (n : vec3 F) : onb F :=
  let w := unit_vector n in
  let helper :=
    if fhalf <? fabs (vx w) then mkvec3 fzero fone fzero
    else mkvec3 fone fzero fzero in
  let v := unit_vector (cross w helper) in
  let u := cross w v in
  mk_onb u v w.

Definition onb_local_to_world (f : onb F) (p : vec3 F) : vec3 F :=
  vadd (vadd (vscale (vx p) (axis_u f)) (vscale (vy p) (axis_v f)))
       (vscale (vz p) (axis_w f)).

Definition onb_world_to_local (f : onb F) (p : vec3 F) : vec3 F :=
  mkvec3 (dot p (axis_u f)) (dot p (axis_v f)) (dot p (axis_w f)).

#[export] Instance OnbFrame : OnbOps F (onb F) := {|
  build_from_w := onb_build_from_w;
  onb_w := @axis_w F;
  local_to_world := onb_local_to_world;
  world_to_local := onb_world_to_local
|}.
End Onb.

(** A scripted generator and a scripted sampler: the state is the list of
    numbers still to be handed out; an exhausted script yields 0. *)
Section Scripted.
Context {F : Type} `{FloatOps F}.

Definition next_number : State (list F) F :=
  fun script =>
    match script with
    | [] => (fzero, [])
    | u :: rest => (u, rest)
    end.

Definition next_pair : State (list F) (vec2 F) :=
  u <- next_number ;;
  w <- next_number ;;
  ret (mkvec2 u w).

(* a stand-in for the disk-to-hemisphere mapping *)
Definition scripted_hemisphere (u : vec2 F) : vec3 F :=
  mkvec3 (x2 u) (y2 u) fone.

#[export] Instance ScriptedGen : RandomGen F (list F) := {|
  unif_rand := next_number;
  random_cosine_direction := u <- next_pair ;; ret (scripted_hemisphere u)
|}.

#[export] Instance ScriptedSampler : SamplerOps F (list F) := {|
  Get1D := next_number;
  Get2D := next_pair
|}.

#[export] Instance ScriptedHelpers : Helpers F := {|
  Reflect := fun wo n =>
    vadd (vopp wo) (vscale (fmul ftwo (dot wo n)) n);
  rand_cosine_direction := scripted_hemisphere
|}.

(* a distribution with constant density 1 that always samples +z *)
Definition flat_distribution : MicrofacetDistribution.t F :=
  MicrofacetDistribution.mk
    (fun _ _ _ => fone)
    (fun _ _ _ => mkvec3 fzero fzero fone).

(* a distribution with constant density 1 whose sampled half vector
   shows the two numbers it was given, in their positions *)
Definition echo_distribution : MicrofacetDistribution.t F :=
  MicrofacetDistribution.mk
    (fun _ _ _ => fone)
    (fun _ u1 u2 => mkvec3 u1 u2 fone).
End Scripted.

(* ================================================================== *)
(** * Properties *)

Unset Implicit Arguments.

(** ** State passing *)

Lemma bind_ret_run {S A B : Type} (x : A) (k : A -> State S B) (s : S) :
  bind (ret x) k s = k x s.
Proof. reflexivity. Qed.

Lemma bind_run {S A B : Type} (m : State S A) (k : A -> State S B) (s : S) :
  bind m k s = k (fst (m s)) (snd (m s)).
Proof. unfold bind. destruct (m s); reflexivity. Qed.

Lemma two_args_run {St A B : Type} (order : arg_order)
  (first : State St A) (second : State St B) (s : St) :
  two_args order first second s
  = match order with
    | left_to_right =>
        (fst (first s), fst (second (snd (first s))),
         snd (second (snd (first s))))
    | right_to_left =>
        (fst (first (snd (second s))), fst (second s),
         snd (first (snd (second s))))
    end.
Proof.
  destruct order; unfold two_args; rewrite !bind_run; reflexivity.
Qed.

(* ------------------------------------------------------------------ *)
(** ** mixture_pdf *)

Section MixtureFacts.
Context {F G Smp : Type}.
Context `{FloatOps F} `{RandomGen F G} `{SamplerOps F Smp}.
Local Open Scope float_ops_scope.

Lemma mixture_value_run (self : mixture_pdf.t F G Smp) (d : vec3 F) (g : G) :
  mixture_pdf.value self d g
  = (fhalf * fst (pdf.value (mixture_pdf.p0 self) d g)
     + fhalf * fst (pdf.value (mixture_pdf.p1 self) d
                      (snd (pdf.value (mixture_pdf.p0 self) d g))),
     snd (pdf.value (mixture_pdf.p1 self) d
            (snd (pdf.value (mixture_pdf.p0 self) d g)))).
Proof.
  unfold mixture_pdf.value. rewrite bind_run, bind_run. reflexivity.
Qed.

Lemma mixture_generate_run (self : mixture_pdf.t F G Smp) (g : G) :
  mixture_pdf.generate self g
  = (if fst (unif_rand g) <? fhalf
     then pdf.generate (mixture_pdf.p0 self)
     else pdf.generate (mixture_pdf.p1 self)) (snd (unif_rand g)).
Proof. unfold mixture_pdf.generate. rewrite bind_run. reflexivity. Qed.

Lemma mixture_generate_sampler_run (self : mixture_pdf.t F G Smp) (s : Smp) :
  mixture_pdf.generate_sampler self s
  = (if fst (Get1D s) <? fhalf
     then pdf.generate_sampler (mixture_pdf.p0 self)
     else pdf.generate_sampler (mixture_pdf.p1 self)) (snd (Get1D s)).
Proof. unfold mixture_pdf.generate_sampler. rewrite bind_run. reflexivity. Qed.

(** C5.  For every direction [d] and every two components [p0], [p1],
    [mixture_pdf::value] returns [0.5 * p0.value(d) + 0.5 * p1.value(d)]:
    the two component densities are each evaluated once on the direction,
    one after the other on the generator, and the result is the sum of
    their halves; the generator is left as the second call leaves it. *)
Theorem mixture_value_half_sum (p0 p1 : pdf.t F G Smp) (d : vec3 F) (g : G) :
  let r0 := pdf.value p0 d g in
  let r1 := pdf.value p1 d (snd r0) in
  mixture_pdf.value (mixture_pdf.new p0 p1) d g
  = (fhalf * fst r0 + fhalf * fst r1, snd r1).
Proof.
  cbv zeta. apply mixture_value_run.
Qed.

(** C7.  [mixture_pdf::generate], in both forms, makes one draw of its own
    ([unif_rand], respectively [Get1D]); it then returns what
    [p0.generate] returns when the draw is below 0.5 and what
    [p1.generate] returns otherwise, the delegate being run on the state
    left by that single draw and receiving nothing else. *)
Theorem mixture_generate_one_draw (p0 p1 : pdf.t F G Smp) (g : G) (s : Smp) :
  let self := mixture_pdf.new p0 p1 in
  let u := fst (unif_rand g) in
  let g' := snd (unif_rand g) in
  let q := fst (Get1D s) in
  let s' := snd (Get1D s) in
  ((u <? fhalf) = true ->
     mixture_pdf.generate self g = pdf.generate p0 g') /\
  ((u <? fhalf) = false ->
     mixture_pdf.generate self g = pdf.generate p1 g') /\
  ((q <? fhalf) = true ->
     mixture_pdf.generate_sampler self s = pdf.generate_sampler p0 s') /\
  ((q <? fhalf) = false ->
     mixture_pdf.generate_sampler self s = pdf.generate_sampler p1 s').
Proof.
  cbv zeta. rewrite mixture_generate_run, mixture_generate_sampler_run.
  cbn [mixture_pdf.new mixture_pdf.p0 mixture_pdf.p1].
  split; [|split; [|split]]; intros Hdraw; rewrite Hdraw; reflexivity.
Qed.
End MixtureFacts.

(** On a scripted generator the draw of [mixture_pdf::generate] is the
    head of the script, and the delegate is run on its tail: one number is
    consumed before the delegate starts. *)
Section MixtureScripted.
Context {F : Type} `{FloatOps F}.
Local Open Scope float_ops_scope.

Lemma mixture_generate_scripted (p0 p1 : pdf.t F (list F) (list F))
  (u : F) (rest : list F) :
  mixture_pdf.generate (mixture_pdf.new p0 p1) (u :: rest)
  = (if u <? fhalf then pdf.generate p0 else pdf.generate p1) rest
  /\ mixture_pdf.generate_sampler (mixture_pdf.new p0 p1) (u :: rest)
     = (if u <? fhalf then pdf.generate_sampler p0
        else pdf.generate_sampler p1) rest.
Proof.
  rewrite mixture_generate_run, mixture_generate_sampler_run.
  split; reflexivity.
Qed.
End MixtureScripted.

(* ------------------------------------------------------------------ *)
(** ** Density evaluations and the generator *)

Section ValueFacts.
Context {F G Smp O : Type}.
Context `{FloatOps F} `{HasInfinity F} `{RandomGen F G} `{SamplerOps F Smp}.
Context `{OnbOps F O} `{Helpers F}.
Local Open Scope float_ops_scope.

Lemma cosine_value_run (self : cosine_pdf.t O) (d : vec3 F) (g : G) :
  cosine_pdf.value self d g
  = (let cosine := dot (unit_vector d) (onb_w (cosine_pdf.uvw self)) in
     if fzero <? cosine then cosine / M_PI else fzero, g).
Proof.
  unfold cosine_pdf.value; cbv zeta.
  destruct (fzero <? _); reflexivity.
Qed.

Lemma glossy_value_run (self : glossy_pdf.t F O) (d : vec3 F) (g : G) :
  glossy_pdf.value self d g
  = (let wo := unit_vector (world_to_local (glossy_pdf.uvw self) d) in
     let wi := glossy_pdf.wi self in
     if vz wo * vz wi <? fzero then INFINITY
     else
       let wh := unit_vector (vadd wi wo) in
       fhalf * (AbsCosTheta wi * M_1_PI
                + MicrofacetDistribution.Pdf (glossy_pdf.distribution self)
                    wo wi wh
                  / (ffour * dot wo wh)), g).
Proof.
  unfold glossy_pdf.value; cbv zeta.
  destruct (_ <? fzero); reflexivity.
Qed.

(** C4.  [glossy_pdf::value] returns [INFINITY] when the frame-local
    outgoing direction [wo] and the stored incoming direction [wi] satisfy
    [wo.z * wi.z < 0], and in every other case returns
    [0.5 * (|wi.z| * (1/pi) + distribution.Pdf(wo, wi, wh) / (4 * dot(wo, wh)))]
    with [wh = normalize(wi + wo)]; [wi] is the negated, normalised,
    frame-local image of the constructor's direction. *)
Theorem glossy_value_sentinel (w wi_ d : vec3 F)
  (dist : MicrofacetDistribution.t F) (g : G) :
  let self := glossy_pdf.new (O := O) w wi_ dist in
  let wi := vopp (unit_vector (world_to_local (build_from_w w) wi_)) in
  let wo := unit_vector (world_to_local (build_from_w w) d) in
  let wh := unit_vector (vadd wi wo) in
  glossy_pdf.wi self = wi /\
  ((vz wo * vz wi <? fzero) = true ->
     glossy_pdf.value self d g = (INFINITY, g)) /\
  ((vz wo * vz wi <? fzero) = false ->
     glossy_pdf.value self d g
     = (fhalf * (fabs (vz wi) * M_1_PI
                 + MicrofacetDistribution.Pdf dist wo wi wh
                   / (ffour * dot wo wh)), g)).
Proof.
  cbv zeta. split; [reflexivity|].
  split; intros Hside; rewrite glossy_value_run; unfold glossy_pdf.new;
    cbn [glossy_pdf.uvw glossy_pdf.wi glossy_pdf.distribution]; cbv zeta;
    rewrite Hside; reflexivity.
Qed.

(** C10.  The densities of [cosine_pdf], [micro_pdf] and [glossy_pdf] do
    not depend on the generator they are handed and leave it as it was:
    started from any two generator states, [value] returns the same
    number for the same object and direction, and the state after the
    call is the state before it. *)
Theorem value_ignores_generator
  (c : cosine_pdf.t O) (m : micro_pdf.t F O) (gl : glossy_pdf.t F O)
  (d : vec3 F) (g1 g2 : G) :
  (fst (cosine_pdf.value c d g1) = fst (cosine_pdf.value c d g2)
   /\ snd (cosine_pdf.value c d g1) = g1) /\
  (fst (micro_pdf.value m d g1) = fst (micro_pdf.value m d g2)
   /\ snd (micro_pdf.value m d g1) = g1) /\
  (fst (glossy_pdf.value gl d g1) = fst (glossy_pdf.value gl d g2)
   /\ snd (glossy_pdf.value gl d g1) = g1).
Proof.
  rewrite !cosine_value_run, !glossy_value_run.
  unfold micro_pdf.value, ret; simpl.
  repeat split.
Qed.
End ValueFacts.

(* ------------------------------------------------------------------ *)
(** ** hitable_pdf *)

Section HitableFacts.
Context {F G Smp : Type}.

Lemma hitable_invoke_keeps_object (self : hitable_pdf.t F G Smp)
  (c : hitable_pdf.call) (st : G * Smp) :
  snd (fst (hitable_pdf.invoke self c st)) = self.
Proof.
  destruct c; simpl.
  - destruct (hitable_pdf.value self direction (fst st)); reflexivity.
  - destruct (hitable_pdf.generate self (fst st)); reflexivity.
  - destruct (hitable_pdf.generate_sampler self (snd st)); reflexivity.
Qed.

Lemma hitable_run_keeps_object (calls : list hitable_pdf.call) :
  forall (self : hitable_pdf.t F G Smp) (st : G * Smp),
    snd (fst (hitable_pdf.run self calls st)) = self.
Proof.
  induction calls as [|c rest IH]; intros self st; simpl.
  - reflexivity.
  - pose proof (hitable_invoke_keeps_object self c st) as Hone.
    destruct (hitable_pdf.invoke self c st) as [[r self'] st'].
    simpl in Hone; subst self'.
    specialize (IH self st').
    destruct (hitable_pdf.run self rest st') as [[rs self''] st''].
    exact IH.
Qed.

(** C8.  [hitable_pdf] only delegates, from a fixed origin: [value(d)] is
    the collection's [pdf_value(o, d)], [generate] is the collection's
    [random(o, .)] for either randomness source, with [o] the origin given
    to the constructor; and after any sequence of calls on the object its
    [o] (and its collection) are the ones it was built with. *)
Theorem hitable_pdf_delegates (p : hitable_list.t F G Smp) (origin : vec3 F) :
  let self := hitable_pdf.new p origin in
  (forall d g, hitable_pdf.value self d g
               = hitable_list.pdf_value p origin d g) /\
  (forall g, hitable_pdf.generate self g = hitable_list.random p origin g) /\
  (forall s, hitable_pdf.generate_sampler self s
             = hitable_list.random_sampler p origin s) /\
  (forall calls st,
     let self' := snd (fst (hitable_pdf.run self calls st)) in
     hitable_pdf.o self' = origin /\ hitable_pdf.ptr self' = p).
Proof.
  cbv zeta. repeat split; try reflexivity;
    rewrite hitable_run_keeps_object; reflexivity.
Qed.
End HitableFacts.

(* ------------------------------------------------------------------ *)
(** ** triangle: ownership *)

Section TriangleOwnership.
Context {F : Type} `{FloatOps F}.

Lemma destructor_log (self : triangle.t F) (log : list triangle.released) :
  triangle.destructor self log
  = log ++
    (if triangle.single self then
       release_if_set triangle.delete_material (triangle.mp self)
       ++ release_if_set triangle.delete_alpha_texture
            (triangle.alpha_mask self)
       ++ release_if_set triangle.delete_bump_texture
            (triangle.bump_tex self)
     else []).
Proof.
  unfold triangle.destructor, release_if_set.
  destruct (triangle.single self); [|now rewrite app_nil_r].
  destruct (nonnull (triangle.mp self)),
           (nonnull (triangle.alpha_mask self)),
           (nonnull (triangle.bump_tex self));
    simpl; rewrite <- ?app_assoc, ?app_nil_r; reflexivity.
Qed.

Lemma count_release_same (ev : pointer -> triangle.released) (p : pointer) :
  nonnull p = true ->
  count_occ triangle.released_eq_dec (release_if_set ev p) (ev p) = 1%nat.
Proof.
  intros Hp. unfold release_if_set. rewrite Hp. simpl.
  destruct (triangle.released_eq_dec (ev p) (ev p)); congruence.
Qed.

Lemma count_release_other (ev ev' : pointer -> triangle.released)
  (p q : pointer) :
  ev p <> ev' q ->
  count_occ triangle.released_eq_dec (release_if_set ev p) (ev' q) = 0%nat.
Proof.
  intros Hne. unfold release_if_set. destruct (nonnull p); simpl; trivial.
  destruct (triangle.released_eq_dec (ev p) (ev' q)); congruence.
Qed.

Lemma owner_releases_each_once (self : triangle.t F) :
  triangle.single self = true ->
  let log := triangle.destructor self [] in
  (nonnull (triangle.mp self) = true ->
     count_occ triangle.released_eq_dec log
       (triangle.delete_material (triangle.mp self)) = 1%nat) /\
  (nonnull (triangle.alpha_mask self) = true ->
     count_occ triangle.released_eq_dec log
       (triangle.delete_alpha_texture (triangle.alpha_mask self)) = 1%nat) /\
  (nonnull (triangle.bump_tex self) = true ->
     count_occ triangle.released_eq_dec log
       (triangle.delete_bump_texture (triangle.bump_tex self)) = 1%nat).
Proof.
  intros Hsingle; cbv zeta. rewrite destructor_log, Hsingle, app_nil_l.
  repeat split; intros Hp; rewrite !count_occ_app.
  - rewrite (count_release_same _ _ Hp).
    rewrite !count_release_other by discriminate. reflexivity.
  - rewrite (count_release_same _ _ Hp).
    rewrite !count_release_other by discriminate. reflexivity.
  - rewrite (count_release_same _ _ Hp).
    rewrite !count_release_other by discriminate. reflexivity.
Qed.

(** C9.  For a triangle built by either constructor with flag [_single],
    destruction releases the material, the alpha mask and the bump texture
    only under [_single = true]: then each of the three that is not null
    is deleted exactly once; under [_single = false] nothing is deleted;
    and whenever something is deleted the flag was true. *)
Theorem triangle_destructor_ownership
  (_a _b _c _na _nb _nc : vec3 F) (_single : bool)
  (mat alpha_mask bump_tex : pointer) (self : triangle.t F) :
  self = triangle.new _a _b _c _single mat alpha_mask bump_tex \/
  self = triangle.new_normals _a _b _c _na _nb _nc _single
           mat alpha_mask bump_tex ->
  let log := triangle.destructor self [] in
  (_single = true ->
     (nonnull mat = true ->
        count_occ triangle.released_eq_dec log
          (triangle.delete_material mat) = 1%nat) /\
     (nonnull alpha_mask = true ->
        count_occ triangle.released_eq_dec log
          (triangle.delete_alpha_texture alpha_mask) = 1%nat) /\
     (nonnull bump_tex = true ->
        count_occ triangle.released_eq_dec log
          (triangle.delete_bump_texture bump_tex) = 1%nat)) /\
  (_single = false -> log = []) /\
  (log <> [] -> _single = true).
Proof.
  intros Hbuilt; cbv zeta.
  assert (Hfields : triangle.single self = _single
                    /\ triangle.mp self = mat
                    /\ triangle.alpha_mask self = alpha_mask
                    /\ triangle.bump_tex self = bump_tex)
    by (destruct Hbuilt; subst self; repeat split).
  destruct Hfields as (Hs & Hm & Ha & Hb).
  split; [|split].
  - intros Htrue.
    pose proof (owner_releases_each_once self) as Hown.
    rewrite Hs, Hm, Ha, Hb in Hown. exact (Hown Htrue).
  - intros Hfalse. rewrite destructor_log, Hs, Hfalse. reflexivity.
  - intros Hlog. destruct _single; [reflexivity|].
    exfalso; apply Hlog. rewrite destructor_log, Hs. reflexivity.
Qed.
End TriangleOwnership.

(* ------------------------------------------------------------------ *)
(** ** hair_pdf: the copy loops of the constructor *)

Section HairCopy.
Context {F : Type}.
Variable pMax : Z.
Hypothesis pMax_nonneg : (0 <= pMax)%Z.

Lemma list_update_length {A : Type} (arr : list A) (n : nat) (x : A) :
  List.length (list_update arr n x) = List.length arr.
Proof.
  revert n; induction arr as [|hd tl IH]; intros [|n]; simpl; auto.
Qed.

Lemma array_read_inside {A : Type} (name : string) (arr : list A) (i : Z) :
  (0 <= i < Z.of_nat (List.length arr))%Z ->
  exists x, array_read name arr i = Done x.
Proof.
  intros Hi. unfold array_read.
  destruct (Z.ltb_spec i 0); [lia|].
  destruct (nth_error arr (Z.to_nat i)) as [x|] eqn:Hnth; [eauto|].
  apply nth_error_None in Hnth. lia.
Qed.

Lemma array_read_outside {A : Type} (name : string) (arr : list A) (i : Z) :
  (Z.of_nat (List.length arr) <= i)%Z ->
  array_read name arr i = OutOfBounds name i.
Proof.
  intros Hi. unfold array_read.
  destruct (Z.ltb_spec i 0); [reflexivity|].
  destruct (nth_error arr (Z.to_nat i)) as [x|] eqn:Hnth; [|reflexivity].
  assert (Hlt : (Z.to_nat i < List.length arr)%nat)
    by (apply nth_error_Some; congruence).
  lia.
Qed.

Lemma array_write_inside {A : Type} (name : string) (arr : list A) (i : Z)
  (x : A) :
  (0 <= i < Z.of_nat (List.length arr))%Z ->
  array_write name arr i x = Done (list_update arr (Z.to_nat i) x).
Proof.
  intros Hi. unfold array_write.
  destruct (Z.leb_spec 0 i); [|lia].
  destruct (Z.ltb_spec i (Z.of_nat (List.length arr))); [|lia].
  reflexivity.
Qed.

Lemma array_write_outside {A : Type} (name : string) (arr : list A) (i : Z)
  (x : A) :
  (Z.of_nat (List.length arr) <= i)%Z ->
  array_write name arr i x = OutOfBounds name i.
Proof.
  intros Hi. unfold array_write.
  destruct (Z.ltb_spec i (Z.of_nat (List.length arr))); [lia|].
  now rewrite andb_false_r.
Qed.

(** From index [p], with [k] in-range entries still to copy, the second
    loop copies them and then reads [v_[pMax + 1]]. *)
Lemma copy_v_from (v_ : list F) (k : nat) :
  forall (p : Z) (v : list (option F)) (fuel : nat),
    (p = pMax + 1 - Z.of_nat k)%Z -> (0 <= p)%Z ->
    (k < fuel)%nat ->
    Z.of_nat (List.length v_) = (pMax + 1)%Z ->
    Z.of_nat (List.length v) = (pMax + 1)%Z ->
    for_loop fuel p (fun p => (p <=? pMax + 1)%Z) (hair_pdf.copy_v v_) v
    = OutOfBounds "v_"%string (pMax + 1)%Z.
Proof.
  induction k as [|k IH]; intros p v fuel Hp Hp0 Hfuel Hsrc Hdst;
    (destruct fuel as [|fuel]; [lia|]); simpl.
  - replace p with (pMax + 1)%Z by lia.
    rewrite Z.leb_refl. unfold hair_pdf.copy_v.
    rewrite array_read_outside by lia. reflexivity.
  - destruct (Z.leb_spec p (pMax + 1)); [|lia].
    unfold hair_pdf.copy_v.
    destruct (array_read_inside "v_"%string v_ p) as [x Hx]; [lia|].
    rewrite Hx, array_write_inside by lia.
    apply IH; try lia.
    rewrite list_update_length; exact Hdst.
Qed.

(** Whatever buffer the caller passes, the second loop does not finish:
    it stops on an access outside [v_] or outside the member [v], at an
    index no greater than [pMax + 1]. *)
Lemma copy_v_never_done (v_ : list F) (k : nat) :
  forall (p : Z) (v : list (option F)) (fuel : nat),
    (p = pMax + 1 - Z.of_nat k)%Z -> (0 <= p)%Z ->
    (k < fuel)%nat ->
    Z.of_nat (List.length v) = (pMax + 1)%Z ->
    exists name idx,
      for_loop fuel p (fun p => (p <=? pMax + 1)%Z) (hair_pdf.copy_v v_) v
      = OutOfBounds name idx /\ (0 <= idx <= pMax + 1)%Z.
Proof.
  induction k as [|k IH]; intros p v fuel Hp Hp0 Hfuel Hdst;
    (destruct fuel as [|fuel]; [lia|]); simpl;
    (destruct (Z.leb_spec p (pMax + 1)); [|lia]);
    unfold hair_pdf.copy_v;
    destruct (Z_lt_le_dec p (Z.of_nat (List.length v_))) as [Hin|Hout].
  - destruct (array_read_inside "v_"%string v_ p) as [x Hx]; [lia|].
    rewrite Hx, array_write_outside by lia.
    exists "v"%string, p; split; [reflexivity|lia].
  - rewrite array_read_outside by lia.
    exists "v_"%string, p; split; [reflexivity|lia].
  - destruct (array_read_inside "v_"%string v_ p) as [x Hx]; [lia|].
    rewrite Hx, array_write_inside by lia.
    apply IH; try lia.
    rewrite list_update_length; exact Hdst.
  - rewrite array_read_outside by lia.
    exists "v_"%string, p; split; [reflexivity|lia].
Qed.

(** The first loop ([i < 3]) stays inside its three-element arrays. *)
Lemma copy_alpha_loop_done (s0 s1 s2 c0 c1 c2 : F) (fuel : nat) :
  hair_pdf.copy_alpha_loop (4 + fuel) [s0; s1; s2] [c0; c1; c2]
    (repeat None 3, repeat None 3)
  = Done ([Some s0; Some s1; Some s2], [Some c0; Some c1; Some c2]).
Proof. reflexivity. Qed.

(** C1 (as the code behaves).  With argument arrays of the prescribed
    sizes (three, three and [pMax + 1] entries) the constructor copies
    entries 0 to [pMax] of [v_] and then, because the loop runs while
    [p <= pMax + 1], reads [v_[pMax + 1]], one entry past the end: no
    object is produced.  The bound holds for every amount of fuel that
    covers the [pMax + 2] iterations. *)
Theorem hair_ctor_reads_past_v {O : Type} (fuel : nat) (uvw_ : O)
  (wi_ wo_ : vec3 F) (eta_ h_ gammaO_ s_ : F) (sigma_a_ : vec3 F)
  (cos2kAlpha_ sin2kAlpha_ v_ : list F) :
  List.length cos2kAlpha_ = 3%nat ->
  List.length sin2kAlpha_ = 3%nat ->
  Z.of_nat (List.length v_) = (pMax + 1)%Z ->
  (4 <= fuel)%nat -> (Z.to_nat pMax + 2 <= fuel)%nat ->
  hair_pdf.new pMax fuel uvw_ wi_ wo_ eta_ h_ gammaO_ s_ sigma_a_
    cos2kAlpha_ sin2kAlpha_ v_
  = OutOfBounds "v_"%string (pMax + 1)%Z.
Proof.
  intros Hcos Hsin Hv Hfuel4 Hfuel.
  destruct cos2kAlpha_ as [|c0 [|c1 [|c2 [|]]]]; try discriminate.
  destruct sin2kAlpha_ as [|s0 [|s1 [|s2 [|]]]]; try discriminate.
  unfold hair_pdf.new.
  replace fuel with (4 + (fuel - 4))%nat at 1 by lia.
  rewrite copy_alpha_loop_done.
  unfold hair_pdf.copy_v_loop.
  rewrite (copy_v_from v_ (Z.to_nat (pMax + 1))); try lia; trivial.
  rewrite repeat_length. lia.
Qed.
End HairCopy.

(* ------------------------------------------------------------------ *)
(** ** Exact arithmetic *)

Section RealFacts.
Context {G Smp O : Type}.
Context `{RandomGen R G} `{SamplerOps R Smp} `{OnbOps R O} `{Helpers R}.
Local Open Scope R_scope.

Lemma Rltb_true (x y : R) : Rltb x y = true <-> x < y.
Proof. unfold Rltb. destruct (Rlt_dec x y); split; intros; congruence. Qed.

Lemma Rltb_false (x y : R) : Rltb x y = false <-> ~ x < y.
Proof. unfold Rltb. destruct (Rlt_dec x y); split; intros; congruence. Qed.

Lemma cosine_value_real (self : cosine_pdf.t O) (d : vec3 R) (g : G) :
  let cosine := dot (unit_vector d) (onb_w (cosine_pdf.uvw self)) in
  (0 < cosine -> cosine_pdf.value self d g = (cosine / PI, g)) /\
  (~ 0 < cosine -> cosine_pdf.value self d g = (0, g)).
Proof.
  cbv zeta. rewrite cosine_value_run. cbv zeta.
  change (@fltb R RealFloat) with Rltb.
  change (@fzero R RealFloat) with 0.
  split; intros Hc.
  - apply Rltb_true in Hc. rewrite Hc. reflexivity.
  - apply Rltb_false in Hc. rewrite Hc. reflexivity.
Qed.

Lemma cosine_value_nonneg (self : cosine_pdf.t O) (d : vec3 R) (g : G) :
  0 <= fst (cosine_pdf.value self d g).
Proof.
  destruct (cosine_value_real self d g) as [Hpos Hnot].
  destruct (Rlt_dec 0 (dot (unit_vector d) (onb_w (cosine_pdf.uvw self))))
    as [Hc|Hc].
  - rewrite (Hpos Hc); simpl.
    apply Rlt_le, Rdiv_lt_0_compat; [exact Hc | exact PI_RGT_0].
  - rewrite (Hnot Hc); simpl. apply Rle_refl.
Qed.

Lemma unit_vector_z_real (k : R) :
  k = 1 \/ k = -1 ->
  unit_vector (F := R) (mkvec3 0 0 k) = mkvec3 0 0 k.
Proof.
  intros Hk. unfold unit_vector, vdivs, length3, squared_length; simpl.
  replace (0 * 0 + 0 * 0 + k * k) with 1 by (destruct Hk; subst k; ring).
  rewrite sqrt_1. f_equal; field.
Qed.

(** C3.  For every direction [d], with
    [cosine = dot(normalize(d), w-axis)], [cosine_pdf::value] returns
    [cosine/pi] when [cosine > 0] and 0 otherwise, so it is never
    negative; and for the pdf built from axis (0,0,1), when the frame's w
    axis is that input, [value((0,0,1)) = 1/pi] and [value((0,0,-1)) = 0].
    Exact arithmetic. *)
Theorem cosine_value_spec (axis d : vec3 R) (g : G) :
  let self := cosine_pdf.new (O := O) axis in
  let cosine := dot (unit_vector d) (onb_w (cosine_pdf.uvw self)) in
  (0 < cosine -> cosine_pdf.value self d g = (cosine / PI, g)) /\
  (~ 0 < cosine -> cosine_pdf.value self d g = (0, g)) /\
  0 <= fst (cosine_pdf.value self d g) /\
  (onb_w (build_from_w (O := O) (mkvec3 0 0 1)) = mkvec3 0 0 1 ->
   let up := cosine_pdf.new (O := O) (mkvec3 0 0 1) in
   cosine_pdf.value up (mkvec3 0 0 1) g = (1 / PI, g) /\
   cosine_pdf.value up (mkvec3 0 0 (-1)) g = (0, g)).
Proof.
  cbv zeta.
  destruct (cosine_value_real (cosine_pdf.new (O := O) axis) d g)
    as [Hpos Hnot].
  split; [exact Hpos|]. split; [exact Hnot|].
  split; [apply cosine_value_nonneg|]. intros Hw; split.
  - destruct (cosine_value_real
                (cosine_pdf.new (O := O) (mkvec3 0 0 1)) (mkvec3 0 0 1) g)
      as [Hup _].
    unfold cosine_pdf.new in *; simpl cosine_pdf.uvw in *.
    rewrite Hw, unit_vector_z_real in Hup by (left; reflexivity).
    replace (dot (F := R) (mkvec3 0 0 1) (mkvec3 0 0 1)) with 1 in Hup
      by (unfold dot; simpl; ring).
    apply Hup. lra.
  - destruct (cosine_value_real
                (cosine_pdf.new (O := O) (mkvec3 0 0 1))
                (mkvec3 0 0 (-1)) g)
      as [_ Hdown].
    unfold cosine_pdf.new in *; simpl cosine_pdf.uvw in *.
    rewrite Hw, unit_vector_z_real in Hdown by (right; reflexivity).
    replace (dot (F := R) (mkvec3 0 0 (-1)) (mkvec3 0 0 1)) with (-1)
      in Hdown by (unfold dot; simpl; ring).
    apply Hdown. lra.
Qed.

(** The sum of halves is the arithmetic mean. *)
Lemma mixture_value_is_mean (p0 p1 : pdf.t R G Smp) (d : vec3 R) (g : G) :
  fst (mixture_pdf.value (mixture_pdf.new p0 p1) d g)
  = (fst (pdf.value p0 d g)
     + fst (pdf.value p1 d (snd (pdf.value p0 d g)))) / 2.
Proof.
  rewrite mixture_value_run. simpl. field.
Qed.

(** In exact arithmetic the diffuse term [AbsCosTheta(wi) * M_1_PI] of
    [glossy_pdf::value] is |wi.z| / pi. *)
Lemma abs_cos_theta_over_pi (wi : vec3 R) :
  (AbsCosTheta wi * M_1_PI)%fl = Rabs (vz wi) / PI.
Proof. reflexivity. Qed.

(** In exact arithmetic halving and adding back is always exact: for
    every axis and every direction [d], the mixture of two cosine pdfs
    built from that axis returns the same [value(d)] as one cosine pdf
    built from it (and leaves the generator alone, as the single pdf
    does). *)
Lemma mixture_of_identical_cosines (axis d : vec3 R) (g : G) :
  let single := cosine_pdf.new (O := O) axis in
  let twin := cosine_pdf.new (O := O) axis in
  mixture_pdf.value
    (mixture_pdf.new (cosine_pdf.as_pdf (Smp := Smp) single)
                     (cosine_pdf.as_pdf twin)) d g
  = cosine_pdf.value single d g.
Proof.
  cbv zeta. rewrite mixture_value_run.
  cbn [mixture_pdf.new mixture_pdf.p0 mixture_pdf.p1
       cosine_pdf.as_pdf pdf.value].
  rewrite !cosine_value_run. cbn [fst snd]. cbv zeta.
  f_equal. simpl. field.
Qed.
End RealFacts.

(* ------------------------------------------------------------------ *)
(** ** triangle: the stored normal *)

Section TriangleNormal.
Context {F : Type} `{FloatOps F}.

Lemma new_normal_is_normalised (_a _b _c : vec3 F) (_single : bool)
  (mat alpha_mask bump_tex : pointer) :
  triangle.normal (triangle.new _a _b _c _single mat alpha_mask bump_tex)
  = make_unit_vector (cross (vsub _b _a) (vsub _c _a)).
Proof. reflexivity. Qed.

(** The constructor with shading normals stores the cross product as it
    is: it has no [make_unit_vector] step. *)
Lemma new_normals_normal_is_cross (_a _b _c _na _nb _nc : vec3 F)
  (_single : bool) (mat alpha_mask bump_tex : pointer) :
  triangle.normal
    (triangle.new_normals _a _b _c _na _nb _nc _single
       mat alpha_mask bump_tex)
  = cross (vsub _b _a) (vsub _c _a).
Proof. reflexivity. Qed.
End TriangleNormal.

Section TriangleNormalReal.
Local Open Scope R_scope.

Lemma squared_length_nonneg (n : vec3 R) : 0 <= squared_length n.
Proof. unfold squared_length; simpl. nra. Qed.

Lemma make_unit_vector_is_unit_vector (n : vec3 R) :
  make_unit_vector n = unit_vector n.
Proof.
  unfold make_unit_vector, unit_vector, vscale, vdivs; simpl.
  f_equal; unfold Rdiv; ring.
Qed.

Lemma make_unit_vector_length (n : vec3 R) :
  squared_length n <> 0 -> length3 (make_unit_vector n) = 1.
Proof.
  intros Hn.
  pose proof (squared_length_nonneg n) as Hge.
  assert (Hpos : 0 < squared_length n) by lra.
  pose proof (sqrt_lt_R0 _ Hpos) as Hroot.
  pose proof (sqrt_sqrt _ Hge) as Hsq.
  unfold length3 at 1.
  replace (squared_length (make_unit_vector n)) with 1; [apply sqrt_1|].
  unfold make_unit_vector, vscale, length3. unfold squared_length at 1.
  cbn [vx vy vz fmul fadd fdiv fone RealFloat fsqrt].
  set (len := R_sqrt.sqrt (squared_length n)) in *.
  transitivity (squared_length n / (len * len)).
  - rewrite Hsq. field. exact Hn.
  - unfold squared_length; simpl. field. lra.
Qed.

(** The constructor without shading normals does store a unit normal, the
    normalised cross product, for every triangle of non-zero area. *)
Lemma new_normal_unit (_a _b _c : vec3 R) (_single : bool)
  (mat alpha_mask bump_tex : pointer) :
  squared_length (cross (vsub _b _a) (vsub _c _a)) <> 0 ->
  let self := triangle.new _a _b _c _single mat alpha_mask bump_tex in
  triangle.normal self = unit_vector (cross (vsub _b _a) (vsub _c _a))
  /\ length3 (triangle.normal self) = 1.
Proof.
  intros Harea; cbv zeta. rewrite new_normal_is_normalised. split.
  - apply make_unit_vector_is_unit_vector.
  - apply make_unit_vector_length; exact Harea.
Qed.

(** C2 (as the code behaves).  On the triangle a = (0,0,0), b = (2,0,0),
    c = (0,2,0) the constructor with shading normals stores
    normal = cross(edge1, edge2) = (0,0,4), of length 4 and not 1, where
    the constructor without shading normals stores a normal of length 1. *)
Theorem triangle_with_normals_normal_not_unit :
  let o := mkvec3 0 0 0 in
  let p := mkvec3 2 0 0 in
  let q := mkvec3 0 2 0 in
  let n := mkvec3 0 0 1 in
  let shaded := triangle.new_normals (F := R) o p q n n n true 0%Z 0%Z 0%Z in
  let flat := triangle.new (F := R) o p q true 0%Z 0%Z 0%Z in
  triangle.normal shaded = mkvec3 0 0 4 /\
  length3 (triangle.normal shaded) = 4 /\
  length3 (triangle.normal shaded) <> 1 /\
  length3 (triangle.normal flat) = 1.
Proof.
  cbv zeta.
  assert (Hcross : cross (F := R) (vsub (mkvec3 2 0 0) (mkvec3 0 0 0))
                     (vsub (mkvec3 0 2 0) (mkvec3 0 0 0)) = mkvec3 0 0 4)
    by (unfold cross, vsub; simpl; f_equal; ring).
  assert (Hlen : length3 (F := R) (mkvec3 0 0 4) = 4).
  { unfold length3, squared_length; simpl.
    replace (0 * 0 + 0 * 0 + 4 * 4) with (4 * 4) by ring.
    apply sqrt_square; lra. }
  rewrite new_normals_normal_is_cross, Hcross, Hlen.
  repeat split; [lra|].
  apply new_normal_unit. rewrite Hcross.
  unfold squared_length; simpl. lra.
Qed.
End TriangleNormalReal.

(* ------------------------------------------------------------------ *)
(** ** The code run in binary64 *)

Section Binary64Runs.
Local Open Scope float_scope.

Let up : vec3 float := mkvec3 0 0 1.
Let down : vec3 float := mkvec3 0 0 (-1).

Example b64_frame_w_axis :
  onb_w (build_from_w (O := onb float) up) = up.
Proof. vm_compute. reflexivity. Qed.

Example b64_cosine_value_up :
  cosine_pdf.value (G := list float) (cosine_pdf.new (O := onb float) up)
    up [] = (1 / M_PI, []).
Proof. vm_compute. reflexivity. Qed.

Example b64_cosine_value_down :
  cosine_pdf.value (G := list float) (cosine_pdf.new (O := onb float) up)
    down [] = (0, []).
Proof. vm_compute. reflexivity. Qed.

Example b64_mixture_of_cosines :
  let single := cosine_pdf.new (O := onb float) up in
  mixture_pdf.value (G := list float) (Smp := list float)
    (mixture_pdf.new (cosine_pdf.as_pdf single) (cosine_pdf.as_pdf single))
    (mkvec3 1 2 2) [0.25]
  = cosine_pdf.value single (mkvec3 1 2 2) [0.25].
Proof. vm_compute. reflexivity. Qed.

Example b64_triangle_normals :
  let shaded :=
    triangle.new_normals (mkvec3 0 0 0) (mkvec3 2 0 0) (mkvec3 0 2 0)
      up up up true 0%Z 0%Z 0%Z in
  let flat :=
    triangle.new (mkvec3 0 0 0) (mkvec3 2 0 0) (mkvec3 0 2 0)
      true 0%Z 0%Z 0%Z in
  triangle.normal shaded = mkvec3 0 0 4
  /\ length3 (triangle.normal shaded) = 4
  /\ triangle.normal flat = mkvec3 0 0 1
  /\ triangle.area shaded = 2.
Proof. vm_compute. repeat split. Qed.
End Binary64Runs.

(* ------------------------------------------------------------------ *)
(** ** The theorems at concrete inputs *)

Section Witnesses.
Local Open Scope float_scope.

Let up : vec3 float := mkvec3 0 0 1.
Let down : vec3 float := mkvec3 0 0 (-1).
Let side : vec3 float := mkvec3 1 0 0.

(** Incoming light along -z on a surface facing +z: a direction below
    the surface hits the sentinel, the direction +z gets the blend. *)
Lemma glossy_value_sentinel_witness :
  let self := glossy_pdf.new (O := onb float) up down flat_distribution in
  glossy_pdf.value (G := list float) self down [] = (infinity, [])
  /\ glossy_pdf.value (G := list float) self up []
     = (0.5 * (1 * M_1_PI + 1 / (4 * 1)), []).
Proof.
  cbv zeta.
  destruct (glossy_value_sentinel (O := onb float) (G := list float)
              up down down flat_distribution []) as (_ & Hinf & _).
  destruct (glossy_value_sentinel (O := onb float) (G := list float)
              up down up flat_distribution []) as (_ & _ & Hblend).
  refine (conj (Hinf _) (eq_trans (Hblend _) _)); vm_compute; reflexivity.
Defined.

(** A first number of 0.25 selects [p0], a first number of 0.75 selects
    [p1]; the delegate runs on the rest of the script. *)
Lemma mixture_generate_one_draw_witness :
  let p0 := cosine_pdf.as_pdf (G := list float) (Smp := list float)
              (cosine_pdf.new (O := onb float) up) in
  let p1 := cosine_pdf.as_pdf (cosine_pdf.new (O := onb float) side) in
  let self := mixture_pdf.new p0 p1 in
  mixture_pdf.generate self [0.25; 0.5; 0.125]
  = pdf.generate p0 [0.5; 0.125]
  /\ mixture_pdf.generate self [0.75; 0.5; 0.125]
     = pdf.generate p1 [0.5; 0.125]
  /\ mixture_pdf.generate_sampler self [0.25; 0.5; 0.125]
     = pdf.generate_sampler p0 [0.5; 0.125]
  /\ mixture_pdf.generate_sampler self [0.75; 0.5; 0.125]
     = pdf.generate_sampler p1 [0.5; 0.125].
Proof.
  cbv zeta.
  set (p0 := cosine_pdf.as_pdf (cosine_pdf.new (O := onb float) up)).
  set (p1 := cosine_pdf.as_pdf (cosine_pdf.new (O := onb float) side)).
  destruct (mixture_generate_one_draw p0 p1
              [0.25; 0.5; 0.125] [0.25; 0.5; 0.125])
    as (Hlow & _ & Hlow' & _).
  destruct (mixture_generate_one_draw p0 p1
              [0.75; 0.5; 0.125] [0.75; 0.5; 0.125])
    as (_ & Hhigh & _ & Hhigh').
  refine (conj (Hlow _) (conj (Hhigh _) (conj (Hlow' _) (Hhigh' _))));
    vm_compute; reflexivity.
Defined.

(** An owning triangle with a material at 16, no alpha mask and a bump
    texture at 48; and the same triangle as a face of a shared mesh. *)
Lemma triangle_destructor_ownership_witness :
  let o := mkvec3 0 0 0 in
  let p := mkvec3 2 0 0 in
  let q := mkvec3 0 2 0 in
  let owner := triangle.new o p q true 16%Z 0%Z 48%Z in
  let face := triangle.new_normals o p q up up up false 16%Z 0%Z 48%Z in
  count_occ triangle.released_eq_dec (triangle.destructor owner [])
    (triangle.delete_material 16%Z) = 1%nat
  /\ count_occ triangle.released_eq_dec (triangle.destructor owner [])
       (triangle.delete_bump_texture 48%Z) = 1%nat
  /\ triangle.destructor face [] = [].
Proof.
  cbv zeta.
  destruct (triangle_destructor_ownership
              (mkvec3 0 0 0) (mkvec3 2 0 0) (mkvec3 0 2 0) up up up
              true 16%Z 0%Z 48%Z _ (or_introl eq_refl))
    as (Hown & _ & _).
  destruct (Hown eq_refl) as (Hmat & _ & Hbump).
  destruct (triangle_destructor_ownership
              (mkvec3 0 0 0) (mkvec3 2 0 0) (mkvec3 0 2 0) up up up
              false 16%Z 0%Z 48%Z _ (or_intror eq_refl))
    as (_ & Hshared & _).
  exact (conj (Hmat eq_refl) (conj (Hbump eq_refl) (Hshared eq_refl))).
Defined.

(** [pMax = 3]: four variances are passed, the fifth is read. *)
Lemma hair_ctor_reads_past_v_witness :
  hair_pdf.new 3 8 (build_from_w (O := onb float) up) down up
    1.5 0 0 1 (mkvec3 0.25 0.25 0.25)
    [1; 1; 1] [0; 0; 0] [0.5; 0.25; 0.125; 0.0625]
  = OutOfBounds "v_"%string 4%Z.
Proof.
  apply (hair_ctor_reads_past_v 3%Z); simpl; try reflexivity; lia.
Defined.

(** With a fifth entry in the caller's buffer the same iteration stores
    past the end of the member array instead. *)
Example hair_ctor_writes_past_v :
  hair_pdf.new 3 8 (build_from_w (O := onb float) up) down up
    1.5 0 0 1 (mkvec3 0.25 0.25 0.25)
    [1; 1; 1] [0; 0; 0] [0.5; 0.25; 0.125; 0.0625; 0.03125]
  = OutOfBounds "v"%string 4%Z.
Proof. reflexivity. Qed.
End Witnesses.

Section RealWitness.
Local Open Scope R_scope.

Lemma frame_w_axis_real :
  onb_w (build_from_w (O := onb R) (mkvec3 0 0 1)) = mkvec3 0 0 1.
Proof.
  change (unit_vector (F := R) (mkvec3 0 0 1) = mkvec3 0 0 1).
  apply unit_vector_z_real; left; reflexivity.
Defined.

(** The frame built from (0,0,1), exact arithmetic, scripted generator. *)
Lemma cosine_value_spec_witness :
  let up := cosine_pdf.new (O := onb R) (mkvec3 0 0 1) in
  cosine_pdf.value (G := list R) up (mkvec3 0 0 1) [] = (1 / PI, [])
  /\ cosine_pdf.value (G := list R) up (mkvec3 0 0 (-1)) [] = (0, [])
  /\ 0 <= fst (cosine_pdf.value (G := list R) up (mkvec3 0 0 1) []).
Proof.
  cbv zeta.
  destruct (cosine_value_spec (O := onb R) (G := list R)
              (mkvec3 0 0 1) (mkvec3 0 0 1) [])
    as (_ & _ & Hnonneg & Hscenario).
  destruct (Hscenario frame_w_axis_real) as (Hup & Hdown).
  exact (conj Hup (conj Hdown Hnonneg)).
Defined.
End RealWitness.

(* ================================================================== *)
(** * Further properties of pdf.h and triangle.h *)

(* ------------------------------------------------------------------ *)
(** ** How the pdf classes compose *)

Section Composition.
Context {F G Smp O : Type}.
Context `{FloatOps F} `{HasInfinity F} `{RandomGen F G} `{SamplerOps F Smp}.
Context `{OnbOps F O} `{Helpers F}.
Local Open Scope float_ops_scope.

(** X1.  Sampling from a [glossy_pdf] is sampling from the
    [mixture_pdf] of the [micro_pdf] and the [cosine_pdf] built from the
    same constructor arguments: both overloads of [generate] return the
    same direction and leave the randomness source in the same state.
    For the generator overload this is under either order of evaluation
    of the two [unif_rand] arguments, the same at the call in
    [glossy_pdf] and at the call in [micro_pdf]. *)
Theorem glossy_generate_is_mixture (order : arg_order) (w wi_ : vec3 F)
  (dist : MicrofacetDistribution.t F) (g : G) (s : Smp) :
  let gl := glossy_pdf.new (O := O) w wi_ dist in
  let mix :=
    mixture_pdf.new
      (micro_pdf.as_pdf order (micro_pdf.new (O := O) w wi_ dist))
      (cosine_pdf.as_pdf (cosine_pdf.new (O := O) w)) in
  glossy_pdf.generate order gl g = mixture_pdf.generate mix g /\
  glossy_pdf.generate_sampler gl s = mixture_pdf.generate_sampler mix s.
Proof.
  cbv zeta. rewrite mixture_generate_run, mixture_generate_sampler_run.
  unfold glossy_pdf.generate, glossy_pdf.generate_sampler.
  rewrite !bind_run. split.
  - destruct (fst (unif_rand g) <? fhalf); reflexivity.
  - destruct (fst (Get1D s) <? fhalf); reflexivity.
Qed.

(** X2.  Off the sentinel, the density of a [glossy_pdf] is half the sum
    of the term [AbsCosTheta(wi) * M_1_PI], which does not depend on the
    direction asked about, and of the density the [micro_pdf] built from
    the same arguments reports for that direction. *)
Theorem glossy_value_blends_micro (w wi_ d : vec3 F)
  (dist : MicrofacetDistribution.t F) (g : G) :
  let gl := glossy_pdf.new (O := O) w wi_ dist in
  let mi := micro_pdf.new (O := O) w wi_ dist in
  let wo := unit_vector (world_to_local (micro_pdf.uvw mi) d) in
  glossy_pdf.value gl d g
  = (if vz wo * vz (micro_pdf.wi mi) <? fzero then INFINITY
     else fhalf * (AbsCosTheta (micro_pdf.wi mi) * M_1_PI
                   + fst (micro_pdf.value mi d g)), g).
Proof.
  cbv zeta. rewrite glossy_value_run.
  unfold glossy_pdf.new, micro_pdf.new, micro_pdf.value; cbv zeta.
  cbn [glossy_pdf.uvw glossy_pdf.wi glossy_pdf.distribution
       micro_pdf.uvw micro_pdf.wi micro_pdf.distribution ret fst].
  reflexivity.
Qed.

(** X3.  The two overloads of [micro_pdf::generate] are the same function
    of the two numbers handed to [Sample_wh].  With [d1] the first and
    [d2] the second number the generator yields, the generator overload
    passes [(d1, d2)] when the arguments are evaluated left to right and
    [(d2, d1)] when they are evaluated right to left; when the sampler's
    [Get2D] yields that pair, both overloads return the same direction.
    Under either order the generator is advanced by exactly the two
    draws, and the sampler by exactly the one [Get2D]. *)
Theorem micro_generate_forms_agree (order : arg_order)
  (self : micro_pdf.t F O) (g : G) (s : Smp) :
  let d1 := fst (unif_rand g) in
  let d2 := fst (unif_rand (snd (unif_rand g))) in
  fst (Get2D s)
  = match order with
    | left_to_right => mkvec2 d1 d2
    | right_to_left => mkvec2 d2 d1
    end ->
  fst (micro_pdf.generate order self g)
  = fst (micro_pdf.generate_sampler self s)
  /\ snd (micro_pdf.generate order self g)
     = snd (unif_rand (snd (unif_rand g)))
  /\ snd (micro_pdf.generate_sampler self s) = snd (Get2D s).
Proof.
  cbv zeta. intros Hpair.
  unfold micro_pdf.generate, micro_pdf.generate_sampler.
  rewrite !bind_run, two_args_run. unfold ret; rewrite Hpair.
  destruct order; cbn [fst snd x2 y2];
    (split; [reflexivity|split; reflexivity]).
Qed.

(** X4.  The two overloads of [mixture_pdf::generate] agree whenever the
    selecting numbers agree and the selected component's overloads agree
    on the states left by the selection. *)
Theorem mixture_generate_forms_agree (p0 p1 : pdf.t F G Smp) (g : G)
  (s : Smp) :
  fst (unif_rand g) = fst (Get1D s) ->
  fst (pdf.generate p0 (snd (unif_rand g)))
  = fst (pdf.generate_sampler p0 (snd (Get1D s))) ->
  fst (pdf.generate p1 (snd (unif_rand g)))
  = fst (pdf.generate_sampler p1 (snd (Get1D s))) ->
  fst (mixture_pdf.generate (mixture_pdf.new p0 p1) g)
  = fst (mixture_pdf.generate_sampler (mixture_pdf.new p0 p1) s).
Proof.
  intros Hsel Hp0 Hp1.
  rewrite mixture_generate_run, mixture_generate_sampler_run.
  cbn [mixture_pdf.new mixture_pdf.p0 mixture_pdf.p1].
  rewrite <- Hsel. destruct (fst (unif_rand g) <? fhalf); assumption.
Qed.

(** X5.  A mixture inherits generator independence: when the density of
    each component, for a direction, ignores the generator and leaves it
    unchanged, so does the density of the mixture. *)
Theorem mixture_value_ignores_generator (p0 p1 : pdf.t F G Smp)
  (d : vec3 F) :
  (forall g g', fst (pdf.value p0 d g) = fst (pdf.value p0 d g')) ->
  (forall g, snd (pdf.value p0 d g) = g) ->
  (forall g g', fst (pdf.value p1 d g) = fst (pdf.value p1 d g')) ->
  (forall g, snd (pdf.value p1 d g) = g) ->
  forall g1 g2,
    fst (mixture_pdf.value (mixture_pdf.new p0 p1) d g1)
    = fst (mixture_pdf.value (mixture_pdf.new p0 p1) d g2)
    /\ snd (mixture_pdf.value (mixture_pdf.new p0 p1) d g1) = g1.
Proof.
  intros Hv0 Hs0 Hv1 Hs1 g1 g2.
  rewrite !mixture_value_run.
  cbn [mixture_pdf.new mixture_pdf.p0 mixture_pdf.p1 fst snd].
  rewrite !Hs0, !Hs1. split; [|reflexivity].
  rewrite (Hv0 g1 g2), (Hv1 g1 g2). reflexivity.
Qed.
End Composition.

(* ------------------------------------------------------------------ *)
(** ** Vector algebra in exact arithmetic *)

Section RealVectors.
Local Open Scope R_scope.

Ltac real_ops :=
  unfold unit_vector, make_unit_vector, vdivs, vscale, vopp, vadd, vsub,
    dot, cross, length3, squared_length in *;
  cbn [vx vy vz fadd fsub fmul fdiv fneg fsqrt fone fzero ftwo ffour
       RealFloat] in *.

Lemma dot_comm_real (a b : vec3 R) : dot a b = dot b a.
Proof. real_ops. ring. Qed.

Lemma dot_vopp_real (a b : vec3 R) : dot (vopp a) b = - dot a b.
Proof. real_ops. ring. Qed.

Lemma dot_vdivs_real (a b : vec3 R) (k : R) :
  dot a (vdivs b k) = dot a b / k.
Proof. real_ops. unfold Rdiv. ring. Qed.

Lemma dot_vdivs_left_real (a b : vec3 R) (k : R) :
  dot (vdivs a k) b = dot a b / k.
Proof. real_ops. unfold Rdiv. ring. Qed.

Lemma dot_vadd_real (a b c : vec3 R) :
  dot a (vadd b c) = dot a b + dot a c.
Proof. real_ops. ring. Qed.

Lemma squared_length_dot (a : vec3 R) : squared_length a = dot a a.
Proof. reflexivity. Qed.

Lemma squared_length_vopp (a : vec3 R) :
  squared_length (vopp a) = squared_length a.
Proof. real_ops. ring. Qed.

Lemma length3_vopp (a : vec3 R) : length3 (vopp a) = length3 a.
Proof. unfold length3. now rewrite squared_length_vopp. Qed.

Lemma squared_length_zero (a : vec3 R) :
  squared_length a = 0 <-> a = mkvec3 0 0 0.
Proof.
  destruct a as [x y z]. split.
  - intros Hz. real_ops.
    assert (x = 0) by nra. assert (y = 0) by nra. assert (z = 0) by nra.
    subst; reflexivity.
  - intros Hz; injection Hz as -> -> ->. real_ops. ring.
Qed.

(** Cauchy-Schwarz, through Lagrange's identity. *)
Lemma dot_squared_bound (a b : vec3 R) :
  dot a b * dot a b <= squared_length a * squared_length b.
Proof.
  assert (Hid : squared_length a * squared_length b - dot a b * dot a b
                = squared_length (cross a b)) by (real_ops; ring).
  pose proof (squared_length_nonneg (cross a b)). lra.
Qed.

Lemma unit_vector_length (d : vec3 R) :
  squared_length d <> 0 -> squared_length (unit_vector d) = 1.
Proof.
  intros Hd.
  pose proof (squared_length_nonneg d) as Hge.
  assert (Hpos : 0 < squared_length d) by lra.
  pose proof (sqrt_lt_R0 _ Hpos) as Hroot.
  pose proof (sqrt_sqrt _ Hge) as Hsq.
  change (0 < length3 d) in Hroot.
  change (length3 d * length3 d = squared_length d) in Hsq.
  unfold unit_vector.
  remember (length3 d) as len eqn:Hlen.
  transitivity (squared_length d / (len * len)).
  - clear Hlen Hsq. real_ops. field. lra.
  - rewrite Hsq. field. exact Hd.
Qed.

Lemma unit_vector_vopp (d : vec3 R) :
  unit_vector (vopp d) = vopp (unit_vector d).
Proof.
  unfold unit_vector. rewrite length3_vopp.
  real_ops. f_equal; unfold Rdiv; ring.
Qed.

Lemma unit_vector_scale (k : R) (d : vec3 R) :
  0 < k -> unit_vector (vscale k d) = unit_vector d.
Proof.
  intros Hk.
  assert (Hlen : length3 (vscale k d) = k * length3 d).
  { unfold length3.
    replace (squared_length (vscale k d))
      with ((k * k) * squared_length d) by (real_ops; ring).
    rewrite sqrt_mult by (try apply squared_length_nonneg; nra).
    rewrite sqrt_square by lra. reflexivity. }
  unfold unit_vector. rewrite Hlen.
  unfold vdivs, vscale; cbn [vx vy vz fmul fdiv RealFloat].
  unfold Rdiv. rewrite Rinv_mult.
  assert (Hinv : k * / k = 1) by (apply Rinv_r; lra).
  f_equal.
  - transitivity ((k * / k) * (vx d * / length3 d)); [ring|].
    rewrite Hinv; ring.
  - transitivity ((k * / k) * (vy d * / length3 d)); [ring|].
    rewrite Hinv; ring.
  - transitivity ((k * / k) * (vz d * / length3 d)); [ring|].
    rewrite Hinv; ring.
Qed.

Lemma cross_orthogonal (a b : vec3 R) :
  dot (cross a b) a = 0 /\ dot (cross a b) b = 0.
Proof. real_ops. split; ring. Qed.

Lemma cross_swap (a b : vec3 R) : cross b a = vopp (cross a b).
Proof. real_ops. f_equal; ring. Qed.

Lemma vsub_translate (a b t : vec3 R) :
  vsub (vadd b t) (vadd a t) = vsub b a.
Proof. real_ops. f_equal; ring. Qed.

Lemma make_unit_vector_vopp (n : vec3 R) :
  make_unit_vector (vopp n) = vopp (make_unit_vector n).
Proof.
  unfold make_unit_vector. rewrite length3_vopp.
  real_ops. f_equal; ring.
Qed.

Lemma dot_vscale_left_real (k : R) (a b : vec3 R) :
  dot (vscale k a) b = k * dot a b.
Proof. real_ops. ring. Qed.
End RealVectors.

(* ------------------------------------------------------------------ *)
(** ** Densities in exact arithmetic *)

Section RealDensities.
Context {G Smp O : Type}.
Context `{RandomGen R G} `{SamplerOps R Smp} `{OnbOps R O} `{Helpers R}.
Local Open Scope R_scope.

(** X6.  With a unit w axis, the cosine density of a non-zero direction
    lies between 0 and 1/pi. *)
Theorem cosine_value_bounded (self : cosine_pdf.t O) (d : vec3 R) (g : G) :
  squared_length (onb_w (cosine_pdf.uvw self)) = 1 ->
  squared_length d <> 0 ->
  0 <= fst (cosine_pdf.value self d g) <= 1 / PI.
Proof.
  intros Hw Hd. split; [apply cosine_value_nonneg|].
  pose proof PI_RGT_0 as Hpi.
  assert (Hinv : 0 < / PI) by (apply Rinv_0_lt_compat; exact Hpi).
  destruct (cosine_value_real self d g) as [Hpos Hnot].
  set (c := dot (unit_vector d) (onb_w (cosine_pdf.uvw self))) in *.
  destruct (Rlt_dec 0 c) as [Hc|Hc].
  - rewrite (Hpos Hc); cbn [fst].
    assert (Hcs : c * c <= 1).
    { pose proof (dot_squared_bound (unit_vector d)
                    (onb_w (cosine_pdf.uvw self))) as Hcs.
      rewrite unit_vector_length, Hw in Hcs by exact Hd.
      fold c in Hcs. lra. }
    assert (Hle : c <= 1) by nra.
    unfold Rdiv. apply Rmult_le_compat_r; lra.
  - rewrite (Hnot Hc); cbn [fst]. unfold Rdiv. lra.
Qed.

(** X7.  The cosine density depends on the direction only, not on its
    length: scaling the argument by a positive factor changes nothing. *)
Theorem cosine_value_scale_invariant (self : cosine_pdf.t O) (k : R)
  (d : vec3 R) (g : G) :
  0 < k ->
  cosine_pdf.value self (vscale k d) g = cosine_pdf.value self d g.
Proof.
  intros Hk. rewrite !cosine_value_run. cbv zeta.
  rewrite unit_vector_scale by exact Hk. reflexivity.
Qed.

(** X8.  Of two opposite directions at most one has a non-zero cosine
    density. *)
Theorem cosine_value_antipodal (self : cosine_pdf.t O) (d : vec3 R) (g : G) :
  fst (cosine_pdf.value self d g) = 0
  \/ fst (cosine_pdf.value self (vopp d) g) = 0.
Proof.
  destruct (cosine_value_real self d g) as [_ Hnot].
  destruct (cosine_value_real self (vopp d) g) as [_ Hnot'].
  rewrite unit_vector_vopp, dot_vopp_real in Hnot'.
  destruct (Rlt_dec 0 (dot (unit_vector d) (onb_w (cosine_pdf.uvw self))))
    as [Hc|Hc].
  - right. rewrite Hnot' by lra. reflexivity.
  - left. rewrite (Hnot Hc). reflexivity.
Qed.

(** X9.  [micro_pdf] and [glossy_pdf] store the same incoming direction,
    and it has length 1 whenever the constructor's direction has a
    non-zero image in the frame. *)
Theorem incoming_direction_normalised (w wi_ : vec3 R)
  (dist : MicrofacetDistribution.t R) :
  squared_length (world_to_local (build_from_w (O := O) w) wi_) <> 0 ->
  length3 (micro_pdf.wi (micro_pdf.new (O := O) w wi_ dist)) = 1
  /\ glossy_pdf.wi (glossy_pdf.new (O := O) w wi_ dist)
     = micro_pdf.wi (micro_pdf.new (O := O) w wi_ dist).
Proof.
  intros Hin. split; [|reflexivity].
  unfold micro_pdf.new; cbn [micro_pdf.wi].
  rewrite length3_vopp. unfold length3.
  rewrite unit_vector_length by exact Hin. apply sqrt_1.
Qed.

Lemma squared_length_vadd (a b : vec3 R) :
  squared_length (vadd a b)
  = squared_length a + 2 * dot a b + squared_length b.
Proof.
  unfold squared_length, vadd, dot;
    cbn [vx vy vz fadd fmul RealFloat]. ring.
Qed.

(** For unit [a] and [b] with [a + b] not zero, the half vector makes the
    same, strictly positive, cosine with both. *)
Lemma half_vector_cosine (a b : vec3 R) :
  squared_length a = 1 -> squared_length b = 1 ->
  squared_length (vadd a b) <> 0 ->
  0 < dot b (unit_vector (vadd a b))
  /\ dot b (unit_vector (vadd a b)) = dot a (unit_vector (vadd a b)).
Proof.
  intros Ha Hb Hs.
  pose proof (squared_length_nonneg (vadd a b)) as Hge.
  assert (Hlen : 0 < length3 (vadd a b))
    by (apply sqrt_lt_R0; lra).
  rewrite squared_length_vadd, Ha, Hb in Hs, Hge.
  unfold unit_vector. rewrite !dot_vdivs_real, !dot_vadd_real.
  rewrite <- !squared_length_dot, Ha, Hb, (dot_comm_real b a).
  split.
  - apply Rdiv_lt_0_compat; [lra | exact Hlen].
  - f_equal. ring.
Qed.

(** X10.  For a [micro_pdf] built by the constructor, a non-zero
    direction whose frame image is not opposite to the incoming one has a
    strictly positive denominator [4 * dot(wo, wh)], the half vector
    makes the same angle with [wo] and [wi], and the density is not
    negative as soon as the distribution's own [Pdf] is not. *)
Theorem micro_value_nonneg (w wi_ d : vec3 R)
  (dist : MicrofacetDistribution.t R) (g : G) :
  let self := micro_pdf.new (O := O) w wi_ dist in
  let wi := micro_pdf.wi self in
  let wo := unit_vector (world_to_local (micro_pdf.uvw self) d) in
  let wh := unit_vector (vadd wi wo) in
  squared_length (world_to_local (build_from_w (O := O) w) wi_) <> 0 ->
  squared_length (world_to_local (build_from_w (O := O) w) d) <> 0 ->
  squared_length (vadd wi wo) <> 0 ->
  0 <= MicrofacetDistribution.Pdf dist wo wi wh ->
  0 < 4 * dot wo wh
  /\ dot wo wh = dot wi wh
  /\ 0 <= fst (micro_pdf.value self d g).
Proof.
  cbv zeta. unfold micro_pdf.new; cbn [micro_pdf.wi micro_pdf.uvw].
  intros Hin Hd Hsum Hpdf.
  set (wi := vopp (unit_vector (world_to_local (build_from_w w) wi_))) in *.
  set (wo := unit_vector (world_to_local (build_from_w w) d)) in *.
  assert (Hwi : squared_length wi = 1)
    by (unfold wi; rewrite squared_length_vopp;
        apply unit_vector_length; exact Hin).
  assert (Hwo : squared_length wo = 1)
    by (unfold wo; apply unit_vector_length; exact Hd).
  destruct (half_vector_cosine wi wo Hwi Hwo Hsum) as [Hpos Hsame].
  split; [lra|]. split; [exact Hsame|].
  unfold micro_pdf.value, ret;
    cbn [fst micro_pdf.wi micro_pdf.uvw micro_pdf.distribution].
  fold wo. fold wi.
  change (0 <= MicrofacetDistribution.Pdf dist wo wi
                 (unit_vector (vadd wi wo))
               / (4 * dot wo (unit_vector (vadd wi wo)))).
  unfold Rdiv. apply Rmult_le_pos; [exact Hpdf|].
  apply Rlt_le, Rinv_0_lt_compat. lra.
Qed.

(** X11.  The density of a mixture lies between the densities of its two
    components. *)
Theorem mixture_value_between (p0 p1 : pdf.t R G Smp) (d : vec3 R) (g : G) :
  let v0 := fst (pdf.value p0 d g) in
  let v1 := fst (pdf.value p1 d (snd (pdf.value p0 d g))) in
  Rmin v0 v1 <= fst (mixture_pdf.value (mixture_pdf.new p0 p1) d g)
  <= Rmax v0 v1.
Proof.
  cbv zeta. rewrite mixture_value_run.
  cbn [mixture_pdf.new mixture_pdf.p0 mixture_pdf.p1 fst].
  set (v0 := fst (pdf.value p0 d g)).
  set (v1 := fst (pdf.value p1 d (snd (pdf.value p0 d g)))).
  pose proof (Rmin_l v0 v1). pose proof (Rmin_r v0 v1).
  pose proof (Rmax_l v0 v1). pose proof (Rmax_r v0 v1).
  cbn [fhalf fadd fmul RealFloat]. lra.
Qed.
End RealDensities.

(* ------------------------------------------------------------------ *)
(** ** Triangle geometry in exact arithmetic *)

Section TriangleGeometry.
Local Open Scope R_scope.

(** X12.  For both constructors the stored normal is perpendicular to the
    two stored edges. *)
Theorem triangle_normal_perpendicular (_a _b _c _na _nb _nc : vec3 R)
  (_single : bool) (mat alpha_mask bump_tex : pointer)
  (self : triangle.t R) :
  self = triangle.new _a _b _c _single mat alpha_mask bump_tex \/
  self = triangle.new_normals _a _b _c _na _nb _nc _single
           mat alpha_mask bump_tex ->
  dot (triangle.normal self) (triangle.edge1 self) = 0
  /\ dot (triangle.normal self) (triangle.edge2 self) = 0.
Proof.
  destruct (cross_orthogonal (vsub _b _a) (vsub _c _a)) as [H1 H2].
  intros [-> | ->]; cbn [triangle.new triangle.new_normals
                         triangle.normal triangle.edge1 triangle.edge2].
  - unfold make_unit_vector. rewrite !dot_vscale_left_real, H1, H2.
    split; ring.
  - split; assumption.
Qed.

(** X13.  Moving the three vertices by the same vector changes neither
    the edges nor the normal nor the area, for both constructors. *)
Theorem triangle_translation_invariant (_a _b _c _na _nb _nc t : vec3 R)
  (_single : bool) (mat alpha_mask bump_tex : pointer) :
  let flat := triangle.new _a _b _c _single mat alpha_mask bump_tex in
  let flat' := triangle.new (vadd _a t) (vadd _b t) (vadd _c t) _single
                 mat alpha_mask bump_tex in
  let shaded := triangle.new_normals _a _b _c _na _nb _nc _single
                  mat alpha_mask bump_tex in
  let shaded' := triangle.new_normals (vadd _a t) (vadd _b t) (vadd _c t)
                   _na _nb _nc _single mat alpha_mask bump_tex in
  (triangle.edge1 flat' = triangle.edge1 flat
   /\ triangle.edge2 flat' = triangle.edge2 flat
   /\ triangle.normal flat' = triangle.normal flat
   /\ triangle.area flat' = triangle.area flat)
  /\ (triangle.edge1 shaded' = triangle.edge1 shaded
      /\ triangle.edge2 shaded' = triangle.edge2 shaded
      /\ triangle.normal shaded' = triangle.normal shaded
      /\ triangle.area shaded' = triangle.area shaded).
Proof.
  cbv zeta. unfold triangle.new, triangle.new_normals.
  cbn [triangle.normal triangle.edge1 triangle.edge2 triangle.area].
  rewrite !vsub_translate. repeat split.
Qed.

(** X14.  Exchanging the second and third vertex exchanges the edges,
    reverses the normal and keeps the area, for both constructors. *)
Theorem triangle_orientation_swap (_a _b _c _na _nb _nc : vec3 R)
  (_single : bool) (mat alpha_mask bump_tex : pointer) :
  let flat := triangle.new _a _b _c _single mat alpha_mask bump_tex in
  let flat' := triangle.new _a _c _b _single mat alpha_mask bump_tex in
  let shaded := triangle.new_normals _a _b _c _na _nb _nc _single
                  mat alpha_mask bump_tex in
  let shaded' := triangle.new_normals _a _c _b _na _nc _nb _single
                   mat alpha_mask bump_tex in
  (triangle.edge1 flat' = triangle.edge2 flat
   /\ triangle.edge2 flat' = triangle.edge1 flat
   /\ triangle.normal flat' = vopp (triangle.normal flat)
   /\ triangle.area flat' = triangle.area flat)
  /\ (triangle.edge1 shaded' = triangle.edge2 shaded
      /\ triangle.edge2 shaded' = triangle.edge1 shaded
      /\ triangle.normal shaded' = vopp (triangle.normal shaded)
      /\ triangle.area shaded' = triangle.area shaded).
Proof.
  cbv zeta. unfold triangle.new, triangle.new_normals.
  cbn [triangle.normal triangle.edge1 triangle.edge2 triangle.area].
  rewrite (cross_swap (vsub _b _a) (vsub _c _a)).
  rewrite make_unit_vector_vopp, length3_vopp. repeat split.
Qed.

(** X15.  Both constructors store the same area; it is not negative, four
    times its square is |edge1|^2 |edge2|^2 - dot(edge1, edge2)^2, and it
    is 0 exactly when cross(edge1, edge2) is the zero vector. *)
Theorem triangle_area_facts (_a _b _c _na _nb _nc : vec3 R)
  (_single : bool) (mat alpha_mask bump_tex : pointer) :
  let flat := triangle.new _a _b _c _single mat alpha_mask bump_tex in
  let shaded := triangle.new_normals _a _b _c _na _nb _nc _single
                  mat alpha_mask bump_tex in
  let e1 := triangle.edge1 flat in
  let e2 := triangle.edge2 flat in
  triangle.area shaded = triangle.area flat
  /\ 0 <= triangle.area flat
  /\ 4 * (triangle.area flat * triangle.area flat)
     = squared_length e1 * squared_length e2 - dot e1 e2 * dot e1 e2
  /\ (triangle.area flat = 0 <-> cross e1 e2 = mkvec3 0 0 0).
Proof.
  cbv zeta. unfold triangle.new, triangle.new_normals.
  cbn [triangle.normal triangle.edge1 triangle.edge2 triangle.area].
  set (e1 := vsub _b _a). set (e2 := vsub _c _a).
  pose proof (squared_length_nonneg (cross e1 e2)) as Hge.
  pose proof (sqrt_pos (squared_length (cross e1 e2))) as Hroot.
  pose proof (sqrt_sqrt _ Hge) as Hsq.
  change (R_sqrt.sqrt (squared_length (cross e1 e2)))
    with (length3 (cross e1 e2)) in Hroot, Hsq.
  change (@fdiv R RealFloat) with Rdiv. change (@ftwo R RealFloat) with 2.
  split; [reflexivity|]. split; [lra|]. split.
  - transitivity (length3 (cross e1 e2) * length3 (cross e1 e2)); [field|].
    rewrite Hsq.
    unfold squared_length, cross, dot;
      cbn [vx vy vz fadd fsub fmul RealFloat]. ring.
  - rewrite <- squared_length_zero. split; intros Hz.
    + rewrite <- Hsq.
      assert (Hl : length3 (cross e1 e2) = 0) by lra.
      rewrite Hl; ring.
    + assert (Hl : length3 (cross e1 e2) = 0)
        by (unfold length3; rewrite Hz; apply sqrt_0).
      rewrite Hl. lra.
Qed.
End TriangleGeometry.

(* ------------------------------------------------------------------ *)
(** ** Triangle ownership across several triangles *)

Section SharedOwnership.
Context {F : Type} `{FloatOps F}.

(** X16.  Two owning triangles ([single] set on both) that hold the same
    non-null material release it twice when both are destroyed. *)
Theorem shared_material_double_delete (t1 t2 : triangle.t F) :
  triangle.single t1 = true -> triangle.single t2 = true ->
  triangle.mp t2 = triangle.mp t1 ->
  nonnull (triangle.mp t1) = true ->
  count_occ triangle.released_eq_dec
    (triangle.destructor t2 (triangle.destructor t1 []))
    (triangle.delete_material (triangle.mp t1)) = 2%nat.
Proof.
  intros Hs1 Hs2 Hmp Hset.
  rewrite (destructor_log t2), (destructor_log t1), Hs1, Hs2, Hmp.
  rewrite app_nil_l, !count_occ_app.
  rewrite !(count_release_same _ _ Hset).
  rewrite !count_release_other by discriminate. reflexivity.
Qed.

(** X17.  Destroying the faces of a mesh, none of which owns its material
    and textures, releases nothing: the log is unchanged whatever the
    number of faces. *)
Theorem shared_faces_release_nothing (faces : list (triangle.t F))
  (log : list triangle.released) :
  Forall (fun face => triangle.single face = false) faces ->
  fold_left (fun l face => triangle.destructor face l) faces log = log.
Proof.
  intros Hall; revert log.
  induction Hall as [|face rest Hface _ IH]; intros log; simpl.
  - reflexivity.
  - rewrite IH, destructor_log, Hface. apply app_nil_r.
Qed.
End SharedOwnership.

(* ------------------------------------------------------------------ *)
(** ** hair_pdf: the second copy loop on any caller buffer *)

Section HairAnyBuffer.
Context {F : Type}.
Variable pMax : Z.
Hypothesis pMax_nonneg : (0 <= pMax)%Z.

Lemma copy_v_outcome (v_ : list F) (k : nat) :
  forall (p : Z) (v : list (option F)) (fuel : nat),
    (p = Z.min (Z.of_nat (List.length v_)) (pMax + 1) - Z.of_nat k)%Z ->
    (0 <= p)%Z ->
    (k < fuel)%nat ->
    Z.of_nat (List.length v) = (pMax + 1)%Z ->
    for_loop fuel p (fun p => (p <=? pMax + 1)%Z) (hair_pdf.copy_v v_) v
    = if (Z.of_nat (List.length v_) <=? pMax + 1)%Z
      then OutOfBounds "v_"%string (Z.of_nat (List.length v_))
      else OutOfBounds "v"%string (pMax + 1)%Z.
Proof.
  induction k as [|k IH]; intros p v fuel Hp Hp0 Hfuel Hdst;
    (destruct fuel as [|fuel]; [lia|]); simpl;
    (destruct (Z.leb_spec p (pMax + 1)); [|lia]);
    unfold hair_pdf.copy_v.
  - destruct (Z.leb_spec (Z.of_nat (List.length v_)) (pMax + 1)).
    + rewrite array_read_outside by lia. f_equal; lia.
    + destruct (array_read_inside "v_"%string v_ p) as [x Hx]; [lia|].
      rewrite Hx, array_write_outside by lia. f_equal; lia.
  - destruct (array_read_inside "v_"%string v_ p) as [x Hx]; [lia|].
    rewrite Hx, array_write_inside by lia.
    apply IH; try lia.
    rewrite list_update_length; exact Hdst.
Qed.

(** X18.  Whatever the length of the buffer passed as [v_], the
    constructor does not complete: a buffer of at most [pMax + 1] entries
    is read one past its end, and with a longer buffer the iteration
    [p = pMax + 1] stores past the end of the member array [v]. *)
Theorem hair_ctor_faults_for_any_buffer {O : Type} (fuel : nat) (uvw_ : O)
  (wi_ wo_ : vec3 F) (eta_ h_ gammaO_ s_ : F) (sigma_a_ : vec3 F)
  (cos2kAlpha_ sin2kAlpha_ v_ : list F) :
  List.length cos2kAlpha_ = 3%nat ->
  List.length sin2kAlpha_ = 3%nat ->
  (4 <= fuel)%nat -> (Z.to_nat pMax + 2 <= fuel)%nat ->
  hair_pdf.new pMax fuel uvw_ wi_ wo_ eta_ h_ gammaO_ s_ sigma_a_
    cos2kAlpha_ sin2kAlpha_ v_
  = if (Z.of_nat (List.length v_) <=? pMax + 1)%Z
    then OutOfBounds "v_"%string (Z.of_nat (List.length v_))
    else OutOfBounds "v"%string (pMax + 1)%Z.
Proof.
  intros Hcos Hsin Hfuel4 Hfuel.
  destruct cos2kAlpha_ as [|c0 [|c1 [|c2 [|]]]]; try discriminate.
  destruct sin2kAlpha_ as [|s0 [|s1 [|s2 [|]]]]; try discriminate.
  unfold hair_pdf.new.
  replace fuel with (4 + (fuel - 4))%nat at 1 by lia.
  rewrite copy_alpha_loop_done.
  unfold hair_pdf.copy_v_loop.
  rewrite (copy_v_outcome v_
             (Z.to_nat (Z.min (Z.of_nat (List.length v_)) (pMax + 1))));
    try lia.
  - destruct (Z.of_nat (List.length v_) <=? pMax + 1)%Z; reflexivity.
  - rewrite repeat_length. lia.
Qed.
End HairAnyBuffer.

(* ------------------------------------------------------------------ *)
(** ** IEEE behaviour on the zero direction *)

Section ZeroDirection.
Context {G Smp O : Type}.
Context `{RandomGen float G} `{SamplerOps float Smp} `{OnbOps float O}.
Context `{Helpers float}.
Local Open Scope float_scope.

Lemma nan_mul_b64 (x : float) : nan * x = nan.
Proof.
  rewrite <- (FloatAxioms.SF2Prim_Prim2SF (nan * x)), FloatAxioms.mul_spec.
  change (Corelib.Floats.FloatOps.Prim2SF nan) with SpecFloat.S754_nan.
  destruct (Corelib.Floats.FloatOps.Prim2SF x); reflexivity.
Qed.

(** X19.  In binary64, normalising the zero vector gives NaN components,
    every comparison with NaN is false, and so the cosine density of the
    zero direction is 0 for every frame, with the generator untouched. *)
Theorem cosine_value_zero_direction_b64 (self : cosine_pdf.t O) (g : G) :
  unit_vector (mkvec3 0 0 0) = mkvec3 nan nan nan
  /\ cosine_pdf.value self (mkvec3 0 0 0) g = (0, g).
Proof.
  assert (Hunit : unit_vector (mkvec3 0 0 0) = mkvec3 nan nan nan)
    by (vm_compute; reflexivity).
  split; [exact Hunit|].
  rewrite cosine_value_run. cbv zeta. rewrite Hunit.
  unfold dot; cbn [vx vy vz fadd fmul fltb fzero Binary64].
  rewrite !nan_mul_b64. reflexivity.
Qed.
End ZeroDirection.

(* ------------------------------------------------------------------ *)
(** ** The further properties at concrete inputs *)

Section FrameUpReal.
Local Open Scope R_scope.

Lemma unit_vector_of_unit (n : vec3 R) :
  squared_length n = 1 -> unit_vector n = n.
Proof.
  intros Hn. unfold unit_vector, length3. rewrite Hn.
  change (@fsqrt R RealFloat 1) with (R_sqrt.sqrt 1). rewrite sqrt_1.
  destruct n as [x y z]. unfold vdivs; cbn [vx vy vz fdiv RealFloat].
  f_equal; field.
Qed.

(** The frame built from (0,0,1): u = (-1,0,0), v = (0,1,0), w = (0,0,1). *)
Lemma frame_up_real :
  build_from_w (O := onb R) (mkvec3 0 0 1)
  = mk_onb (mkvec3 (-1) 0 0) (mkvec3 0 1 0) (mkvec3 0 0 1).
Proof.
  cbn [build_from_w OnbFrame]. unfold onb_build_from_w.
  rewrite unit_vector_z_real by (left; reflexivity).
  cbn [vx fabs fhalf fltb fzero fone RealFloat].
  rewrite Rabs_R0.
  assert (Hhalf : Rltb (/ 2) 0 = false) by (apply Rltb_false; lra).
  rewrite Hhalf.
  assert (Hv : cross (F := R) (mkvec3 0 0 1) (mkvec3 1 0 0) = mkvec3 0 1 0)
    by (unfold cross; cbn [vx vy vz fsub fmul RealFloat]; f_equal; ring).
  rewrite Hv.
  rewrite (unit_vector_of_unit (mkvec3 0 1 0))
    by (unfold squared_length; cbn [vx vy vz fadd fmul RealFloat]; ring).
  assert (Hu : cross (F := R) (mkvec3 0 0 1) (mkvec3 0 1 0)
               = mkvec3 (-1) 0 0)
    by (unfold cross; cbn [vx vy vz fsub fmul RealFloat]; f_equal; ring).
  rewrite Hu. reflexivity.
Qed.

Lemma local_z_real (k : R) :
  world_to_local (build_from_w (O := onb R) (mkvec3 0 0 1)) (mkvec3 0 0 k)
  = mkvec3 0 0 k.
Proof.
  rewrite frame_up_real. cbn [world_to_local OnbFrame].
  unfold onb_world_to_local, dot;
    cbn [axis_u axis_v axis_w vx vy vz fadd fmul RealFloat].
  f_equal; ring.
Qed.

Lemma squared_length_z_real (k : R) :
  squared_length (F := R) (mkvec3 0 0 k) = k * k.
Proof. unfold squared_length; cbn [vx vy vz fadd fmul RealFloat]. ring. Qed.
End FrameUpReal.

Section FurtherWitnessesReal.
Local Open Scope R_scope.

Let up : vec3 R := mkvec3 0 0 1.
Let down : vec3 R := mkvec3 0 0 (-1).

Lemma cosine_value_bounded_witness :
  0 <= fst (cosine_pdf.value (G := list R)
              (cosine_pdf.new (O := onb R) up) (mkvec3 1 2 2) [])
  <= 1 / PI.
Proof.
  apply cosine_value_bounded.
  - unfold cosine_pdf.new; cbn [cosine_pdf.uvw].
    unfold up. rewrite frame_w_axis_real, squared_length_z_real. ring.
  - unfold squared_length; cbn [vx vy vz fadd fmul RealFloat]. lra.
Defined.

Lemma cosine_value_scale_invariant_witness :
  cosine_pdf.value (G := list R) (cosine_pdf.new (O := onb R) up)
    (vscale 2 (mkvec3 1 2 2)) []
  = cosine_pdf.value (cosine_pdf.new (O := onb R) up) (mkvec3 1 2 2) [].
Proof. apply cosine_value_scale_invariant. lra. Defined.

Lemma incoming_direction_normalised_witness :
  length3 (micro_pdf.wi
             (micro_pdf.new (O := onb R) up down flat_distribution)) = 1.
Proof.
  refine (proj1 (incoming_direction_normalised (O := onb R)
                   up down flat_distribution _)).
  unfold up, down. rewrite local_z_real, squared_length_z_real. lra.
Defined.

Lemma micro_value_nonneg_witness :
  0 <= fst (micro_pdf.value (G := list R)
              (micro_pdf.new (O := onb R) up down flat_distribution) up []).
Proof.
  refine (proj2 (proj2 (micro_value_nonneg (O := onb R) (G := list R)
                          up down up flat_distribution [] _ _ _ _))).
  - unfold up, down. rewrite local_z_real, squared_length_z_real. lra.
  - unfold up. rewrite local_z_real, squared_length_z_real. lra.
  - unfold micro_pdf.new; cbn [micro_pdf.wi micro_pdf.uvw].
    unfold up, down. rewrite !local_z_real.
    rewrite !unit_vector_z_real by (auto).
    unfold squared_length, vadd, vopp;
      cbn [vx vy vz fadd fmul fneg RealFloat]. lra.
  - cbn [MicrofacetDistribution.Pdf flat_distribution fone RealFloat]. lra.
Defined.

Lemma triangle_normal_perpendicular_witness :
  let flat := triangle.new (F := R) (mkvec3 0 0 0) (mkvec3 2 0 0)
                (mkvec3 0 2 0) true 16%Z 0%Z 48%Z in
  dot (triangle.normal flat) (triangle.edge1 flat) = 0
  /\ dot (triangle.normal flat) (triangle.edge2 flat) = 0.
Proof.
  cbv zeta.
  exact (triangle_normal_perpendicular
           (mkvec3 0 0 0) (mkvec3 2 0 0) (mkvec3 0 2 0) up up up
           true 16%Z 0%Z 48%Z _ (or_introl eq_refl)).
Defined.
End FurtherWitnessesReal.

Section FurtherWitnesses.
Local Open Scope float_scope.

Let up : vec3 float := mkvec3 0 0 1.
Let down : vec3 float := mkvec3 0 0 (-1).
Let side : vec3 float := mkvec3 1 0 0.

Lemma micro_generate_forms_agree_witness :
  let self := micro_pdf.new (O := onb float) up down echo_distribution in
  fst (micro_pdf.generate (G := list float) right_to_left self
         [0.25; 0.5; 0.125])
  = fst (micro_pdf.generate_sampler (Smp := list float) self
           [0.5; 0.25; 0.125])
  /\ fst (micro_pdf.generate (G := list float) left_to_right self
            [0.25; 0.5; 0.125])
     = fst (micro_pdf.generate_sampler (Smp := list float) self
              [0.25; 0.5; 0.125]).
Proof.
  cbv zeta.
  exact (conj
           (proj1 (micro_generate_forms_agree right_to_left
                     (micro_pdf.new (O := onb float) up down
                        echo_distribution)
                     [0.25; 0.5; 0.125] [0.5; 0.25; 0.125] eq_refl))
           (proj1 (micro_generate_forms_agree left_to_right
                     (micro_pdf.new (O := onb float) up down
                        echo_distribution)
                     [0.25; 0.5; 0.125] [0.25; 0.5; 0.125] eq_refl))).
Defined.

Lemma mixture_generate_forms_agree_witness :
  let p0 := cosine_pdf.as_pdf (G := list float) (Smp := list float)
              (cosine_pdf.new (O := onb float) up) in
  let p1 := cosine_pdf.as_pdf (cosine_pdf.new (O := onb float) side) in
  fst (mixture_pdf.generate (mixture_pdf.new p0 p1) [0.25; 0.5; 0.125])
  = fst (mixture_pdf.generate_sampler (mixture_pdf.new p0 p1)
           [0.25; 0.5; 0.125]).
Proof.
  cbv zeta.
  exact (mixture_generate_forms_agree
           (cosine_pdf.as_pdf (cosine_pdf.new (O := onb float) up))
           (cosine_pdf.as_pdf (cosine_pdf.new (O := onb float) side))
           [0.25; 0.5; 0.125] [0.25; 0.5; 0.125]
           eq_refl eq_refl eq_refl).
Defined.

Lemma mixture_value_ignores_generator_witness :
  let p0 := cosine_pdf.as_pdf (G := list float) (Smp := list float)
              (cosine_pdf.new (O := onb float) up) in
  let p1 := glossy_pdf.as_pdf right_to_left
              (glossy_pdf.new (O := onb float) up down flat_distribution) in
  fst (mixture_pdf.value (mixture_pdf.new p0 p1) side [0.25; 0.5])
  = fst (mixture_pdf.value (mixture_pdf.new p0 p1) side [])
  /\ snd (mixture_pdf.value (mixture_pdf.new p0 p1) side [0.25; 0.5])
     = [0.25; 0.5].
Proof.
  cbv zeta.
  apply (mixture_value_ignores_generator
           (cosine_pdf.as_pdf (cosine_pdf.new (O := onb float) up))
           (glossy_pdf.as_pdf right_to_left
              (glossy_pdf.new (O := onb float) up down flat_distribution))
           side);
    intros; cbn [pdf.value cosine_pdf.as_pdf glossy_pdf.as_pdf];
    rewrite ?cosine_value_run, ?glossy_value_run; reflexivity.
Defined.

Lemma shared_material_double_delete_witness :
  let t1 := triangle.new (mkvec3 0 0 0) (mkvec3 2 0 0) (mkvec3 0 2 0)
              true 16%Z 0%Z 0%Z in
  let t2 := triangle.new_normals (mkvec3 0 0 0) (mkvec3 2 0 0)
              (mkvec3 2 2 0) up up up true 16%Z 0%Z 48%Z in
  count_occ triangle.released_eq_dec
    (triangle.destructor t2 (triangle.destructor t1 []))
    (triangle.delete_material 16%Z) = 2%nat.
Proof.
  cbv zeta.
  exact (shared_material_double_delete
           (triangle.new (mkvec3 0 0 0) (mkvec3 2 0 0) (mkvec3 0 2 0)
              true 16%Z 0%Z 0%Z)
           (triangle.new_normals (mkvec3 0 0 0) (mkvec3 2 0 0)
              (mkvec3 2 2 0) up up up true 16%Z 0%Z 48%Z)
           eq_refl eq_refl eq_refl eq_refl).
Defined.

Lemma shared_faces_release_nothing_witness :
  let f1 := triangle.new (mkvec3 0 0 0) (mkvec3 2 0 0) (mkvec3 0 2 0)
              false 16%Z 0%Z 48%Z in
  let f2 := triangle.new_normals (mkvec3 0 0 0) (mkvec3 2 0 0)
              (mkvec3 2 2 0) up up up false 16%Z 0%Z 48%Z in
  fold_left (fun l face => triangle.destructor face l) [f1; f2]
    [triangle.delete_material 32%Z]
  = [triangle.delete_material 32%Z].
Proof.
  cbv zeta.
  apply shared_faces_release_nothing.
  repeat constructor.
Defined.

Lemma hair_ctor_faults_for_any_buffer_witness :
  hair_pdf.new 3 8 (build_from_w (O := onb float) up) down up
    1.5 0 0 1 (mkvec3 0.25 0.25 0.25)
    [1; 1; 1] [0; 0; 0] [0.5; 0.25; 0.125; 0.0625; 0.03125; 0.015625]
  = OutOfBounds "v"%string 4%Z.
Proof.
  exact (hair_ctor_faults_for_any_buffer 3%Z ltac:(lia) 8
           (build_from_w (O := onb float) up) down up
           1.5 0 0 1 (mkvec3 0.25 0.25 0.25)
           [1; 1; 1] [0; 0; 0]
           [0.5; 0.25; 0.125; 0.0625; 0.03125; 0.015625]
           eq_refl eq_refl ltac:(lia) ltac:(simpl; lia)).
Defined.
End FurtherWitnesses.

(* ------------------------------------------------------------------ *)
(** ** Order of the components of a mixture; zero-area triangles *)

Section MixtureSymmetry.
Context {G Smp : Type}.
Context `{RandomGen R G} `{SamplerOps R Smp}.
Local Open Scope R_scope.

(** X20.  In exact arithmetic, when the densities of the two components
    do not depend on the generator, the density of the mixture does not
    depend on the order in which the components were given. *)
Theorem mixture_value_symmetric (p0 p1 : pdf.t R G Smp) (d : vec3 R) :
  (forall g g', fst (pdf.value p0 d g) = fst (pdf.value p0 d g')) ->
  (forall g g', fst (pdf.value p1 d g) = fst (pdf.value p1 d g')) ->
  forall g,
    fst (mixture_pdf.value (mixture_pdf.new p0 p1) d g)
    = fst (mixture_pdf.value (mixture_pdf.new p1 p0) d g).
Proof.
  intros Hv0 Hv1 g. rewrite !mixture_value_run.
  cbn [mixture_pdf.new mixture_pdf.p0 mixture_pdf.p1 fst].
  rewrite (Hv1 (snd (pdf.value p0 d g)) g).
  rewrite (Hv0 (snd (pdf.value p1 d g)) g).
  cbn [fhalf fadd fmul RealFloat]. ring.
Qed.
End MixtureSymmetry.

Section DegenerateTriangle.
Local Open Scope float_scope.

(** A binary64 number that compares equal to 0 is +0 or -0. *)
Lemma b64_zero_cases (x : float) :
  PrimFloat.eqb x 0 = true -> x = 0 \/ x = -0.
Proof.
  rewrite FloatAxioms.eqb_spec.
  rewrite <- (FloatAxioms.SF2Prim_Prim2SF x).
  destruct (Corelib.Floats.FloatOps.Prim2SF x) as [sgn|sgn| |sgn m e] eqn:Hx.
  - intros _. destruct sgn; [right|left]; reflexivity.
  - rewrite FloatAxioms.Prim2SF_SF2Prim by reflexivity.
    destruct sgn; discriminate.
  - rewrite FloatAxioms.Prim2SF_SF2Prim by reflexivity. discriminate.
  - rewrite FloatAxioms.Prim2SF_SF2Prim
      by (rewrite <- Hx; apply FloatAxioms.Prim2SF_valid).
    destruct sgn; discriminate.
Qed.

(** X21.  In binary64, for a triangle whose cross(edge1, edge2) has three
    components that compare equal to 0 (each +0 or -0), both constructors
    store area 0; the constructor without shading normals stores a normal
    of three NaN (it scales the zero components by 1/0), the one with
    shading normals stores that cross product, of zero components. *)
Theorem zero_area_triangle_b64 (_a _b _c _na _nb _nc : vec3 float)
  (_single : bool) (mat alpha_mask bump_tex : pointer) :
  let n := cross (vsub _b _a) (vsub _c _a) in
  PrimFloat.eqb (vx n) 0 = true ->
  PrimFloat.eqb (vy n) 0 = true ->
  PrimFloat.eqb (vz n) 0 = true ->
  let flat := triangle.new _a _b _c _single mat alpha_mask bump_tex in
  let shaded := triangle.new_normals _a _b _c _na _nb _nc _single
                  mat alpha_mask bump_tex in
  triangle.area flat = 0 /\ triangle.area shaded = 0
  /\ triangle.normal flat = mkvec3 nan nan nan
  /\ triangle.normal shaded = n.
Proof.
  cbv zeta. intros Hx Hy Hz.
  unfold triangle.new, triangle.new_normals.
  cbn [triangle.area triangle.normal].
  destruct (cross (vsub _b _a) (vsub _c _a)) as [x y z].
  cbn [vx vy vz] in Hx, Hy, Hz.
  destruct (b64_zero_cases x Hx) as [-> | ->],
           (b64_zero_cases y Hy) as [-> | ->],
           (b64_zero_cases z Hz) as [-> | ->];
    (split; [vm_compute; reflexivity|]);
    (split; [vm_compute; reflexivity|]);
    (split; [vm_compute; reflexivity|reflexivity]).
Qed.

(** The collinear vertices (0,0,0), (1,0,0), (-2,0,0): the cross product
    is (0, -0, 0). *)
Lemma zero_area_triangle_b64_witness :
  let flat := triangle.new (mkvec3 0 0 0) (mkvec3 1 0 0) (mkvec3 (-2) 0 0)
                true 16%Z 0%Z 0%Z in
  let shaded := triangle.new_normals (mkvec3 0 0 0) (mkvec3 1 0 0)
                  (mkvec3 (-2) 0 0) (mkvec3 0 0 1) (mkvec3 0 0 1)
                  (mkvec3 0 0 1) true 16%Z 0%Z 0%Z in
  triangle.area flat = 0 /\ triangle.normal flat = mkvec3 nan nan nan
  /\ triangle.normal shaded = mkvec3 0 (-0) 0.
Proof.
  cbv zeta.
  destruct (zero_area_triangle_b64
              (mkvec3 0 0 0) (mkvec3 1 0 0) (mkvec3 (-2) 0 0)
              (mkvec3 0 0 1) (mkvec3 0 0 1) (mkvec3 0 0 1)
              true 16%Z 0%Z 0%Z eq_refl eq_refl eq_refl)
    as (Harea & _ & Hnormal & Hshaded).
  exact (conj Harea (conj Hnormal Hshaded)).
Defined.
End DegenerateTriangle.

Section MixtureSymmetryWitness.
Local Open Scope R_scope.

Lemma mixture_value_symmetric_witness :
  let p0 := cosine_pdf.as_pdf (G := list R) (Smp := list R)
              (cosine_pdf.new (O := onb R) (mkvec3 0 0 1)) in
  let p1 := cosine_pdf.as_pdf (cosine_pdf.new (O := onb R) (mkvec3 1 0 0)) in
  fst (mixture_pdf.value (mixture_pdf.new p0 p1) (mkvec3 1 2 2) [])
  = fst (mixture_pdf.value (mixture_pdf.new p1 p0) (mkvec3 1 2 2) []).
Proof.
  cbv zeta.
  apply (mixture_value_symmetric
           (cosine_pdf.as_pdf (cosine_pdf.new (O := onb R) (mkvec3 0 0 1)))
           (cosine_pdf.as_pdf (cosine_pdf.new (O := onb R) (mkvec3 1 0 0))));
    intros; cbn [pdf.value cosine_pdf.as_pdf];
    rewrite !cosine_value_run; reflexivity.
Defined.
End MixtureSymmetryWitness.

(* ------------------------------------------------------------------ *)
(** ** The mixture of two identical cosine pdfs, in any arithmetic *)

Section IdenticalCosines.
Context {F G Smp O : Type}.
Context `{FloatOps F} `{RandomGen F G} `{SamplerOps F Smp}.
Context `{OnbOps F O} `{Helpers F}.
Local Open Scope float_ops_scope.

End IdenticalCosines.

Section IdenticalCosinesBinary64.
Local Open Scope float_scope.

Let up : vec3 float := mkvec3 0 0 1.


End IdenticalCosinesBinary64.

Section ArgumentOrder.
Local Open Scope float_scope.

(** The order of the two draws shows in the sampled direction: on one
    script the two orders give what the other order gives on the script
    with its first two numbers exchanged. *)
Example b64_micro_generate_orders :
  let self := micro_pdf.new (O := onb float) (mkvec3 0 0 1) (mkvec3 0 0 (-1))
                echo_distribution in
  micro_pdf.generate (G := list float) right_to_left self [0.25; 0.5]
  = micro_pdf.generate left_to_right self [0.5; 0.25]
  /\ PrimFloat.eqb
       (vx (fst (micro_pdf.generate (G := list float) right_to_left self
                   [0.25; 0.5])))
       (vx (fst (micro_pdf.generate (G := list float) left_to_right self
                   [0.25; 0.5]))) = false.
Proof. vm_compute. split; reflexivity. Qed.
End ArgumentOrder.
